(** * tasks5: the Task entity, the JSON file storage and the commands

    A shallow embedding of [tasks5/models.py], [tasks5/storage.py],
    [tasks5/commands] and [tasks5/cli.py].

    Python values that travel through [json.load] / [json.dump] are the
    inductive type [pyval]; exceptions are the type [exn] and a call that may
    raise returns [result A].  A str is a [string] whose characters are the
    code points below 256.  The file system is a finite map from paths to
    file contents together with a set of directories; the storage methods
    pass it explicitly.  What the interpreter and the operating system decide
    (the clock, [uuid4], an I/O fault, a line that the console refuses) is
    the [env] argument of the method that asks for it; one method call reads
    the clock once.  The text codec of the [json] module and the functions
    of [os.path] are the parameters [Lib] of the storage methods. *)

From Stdlib Require Import String Ascii ZArith List Lia DecimalString.
From stdpp Require Import gmap strings.

Set Warnings "-register-all".
Set Default Proof Using "Type*".

(** ** Exceptions *)

(** The exception classes that can leave the modelled methods.  The two
    raised by the repository itself carry their message; the built-in ones
    are identified by their class. *)
Inductive exn : Type :=
| StorageError (msg : string)     (* storage.py, class StorageError *)
| ValueError (msg : string)       (* raised by Task.create, and by str(x) *)
| TypeError                       (* list(x) / iteration over a non-iterable *)
| AttributeError                  (* x.get on a value that is not a dict *)
| UnicodeDecodeError              (* file content that is not UTF-8 *)
| UnicodeEncodeError              (* a line that the console cannot encode *)
| OSError (msg : string).         (* an I/O failure, with str(exc) *)

Inductive exn_class : Type :=
| CStorageError | CValueError | CTypeError | CAttributeError
| CUnicodeDecodeError | CUnicodeEncodeError | COSError.

Definition class_of (e : exn) : exn_class :=
  match e with
  | StorageError _ => CStorageError
  | ValueError _ => CValueError
  | TypeError => CTypeError
  | AttributeError => CAttributeError
  | UnicodeDecodeError => CUnicodeDecodeError
  | UnicodeEncodeError => CUnicodeEncodeError
  | OSError _ => COSError
  end.

Inductive result (A : Type) : Type :=
| Ok (a : A)
| Raise (e : exn).
Arguments Ok {A} a.
Arguments Raise {A} e.

Global Instance result_ret : MRet result := fun _ a => Ok a.

Global Instance result_bind : MBind result := fun _ _ k r =>
  match r with
  | Ok a => k a
  | Raise e => Raise e
  end.

(** ** Python values *)

(** A value as [json.load] builds it: [None], [bool], [int], [float], [str],
    [list] and [dict] with string keys.  A dict keeps its entries in
    insertion order.  A float is carried by its [repr] text, which determines
    it. *)
Inductive pyval : Type :=
| PNone
| PBool (b : bool)
| PInt (n : Z)
| PFloat (repr : string)
| PStr (s : string)
| PList (items : list pyval)
| PDict (entries : list (string * pyval)).

(** The value stored under [key], if any. *)
Fixpoint dict_lookup (d : list (string * pyval)) (key : string) : option pyval :=
  match d with
  | [] => None
  | (k, v) :: d' => if String.eqb k key then Some v else dict_lookup d' key
  end.

(** [d.get(key, default)] *)
Definition dict_get (d : list (string * pyval)) (key : string) (default : pyval) : pyval :=
  match dict_lookup d key with
  | Some v => v
  | None => default
  end.

(** [d.get(key)]: [None] when the key is missing. *)
Definition dict_get_opt (d : list (string * pyval)) (key : string) : pyval :=
  dict_get d key PNone.

(** [bool(x)] *)
Definition py_bool (v : pyval) : bool :=
  match v with
  | PNone => false
  | PBool b => b
  | PInt n => negb (n =? 0)%Z
  | PFloat r => negb (String.eqb r "0.0" || String.eqb r "-0.0")
  | PStr s => negb (String.eqb s "")
  | PList l => match l with [] => false | _ => true end
  | PDict d => match d with [] => false | _ => true end
  end.

(** The items that iterating over [x] yields: the elements of a list, the
    one-character substrings of a str, the keys of a dict; anything else is
    not iterable. *)
Definition py_iter (v : pyval) : result (list pyval) :=
  match v with
  | PList l => Ok l
  | PStr s => Ok (map (fun c => PStr (String c "")) (list_ascii_of_string s))
  | PDict d => Ok (map (fun kv => PStr (fst kv)) d)
  | PNone | PBool _ | PInt _ | PFloat _ => Raise TypeError
  end.

(** [list(x)] *)
Definition py_list (v : pyval) : result (list pyval) := py_iter v.

(** *** [str(x)] and [repr(x)] *)

(** The double quote character. *)
Definition dquote : ascii := "034"%char.

Definition string_of_Z (n : Z) : string := NilZero.string_of_int (Z.to_int n).

Definition hex_digit (n : nat) : ascii :=
  match n with
  | 0 => "0" | 1 => "1" | 2 => "2" | 3 => "3" | 4 => "4" | 5 => "5" | 6 => "6"
  | 7 => "7" | 8 => "8" | 9 => "9" | 10 => "a" | 11 => "b" | 12 => "c"
  | 13 => "d" | 14 => "e" | _ => "f"
  end%char.

Definition hex2 (c : ascii) : string :=
  let n := nat_of_ascii c in
  String (hex_digit (n / 16)) (String (hex_digit (n mod 16)) "").

Fixpoint contains_char (c : ascii) (s : string) : bool :=
  match s with
  | EmptyString => false
  | String c' s' => Ascii.eqb c c' || contains_char c s'
  end.

(** [str.isprintable] on one character (code points below 256). *)
Definition isprintable (c : ascii) : bool :=
  let n := nat_of_ascii c in
  ((32 <=? n) && (n <? 127)) || ((161 <=? n) && negb (n =? 173)).

Definition repr_char (quote c : ascii) : string :=
  if Ascii.eqb c quote || Ascii.eqb c "\"%char then String "\"%char (String c "")
  else if Ascii.eqb c "009"%char then "\t"
  else if Ascii.eqb c "010"%char then "\n"
  else if Ascii.eqb c "013"%char then "\r"
  else if isprintable c then String c ""
  else "\x" +:+ hex2 c.

Fixpoint repr_body (quote : ascii) (s : string) : string :=
  match s with
  | EmptyString => ""
  | String c s' => repr_char quote c +:+ repr_body quote s'
  end.

(** [repr] of a str: single quotes, unless the text has a single quote and
    no double quote. *)
Definition repr_str (s : string) : string :=
  let quote :=
    if contains_char "'"%char s && negb (contains_char dquote s)
    then dquote else "'"%char in
  String quote (repr_body quote s +:+ String quote "").

Fixpoint join (sep : string) (l : list string) : string :=
  match l with
  | [] => ""
  | [x] => x
  | x :: l' => x +:+ sep +:+ join sep l'
  end.

(** The number of decimal digits of an int. *)
Definition digits (n : Z) : nat := String.length (string_of_Z (Z.abs n)).

(** [sys.get_int_max_str_digits()], as the interpreter (CPython 3.11) starts. *)
Definition int_max_str_digits : nat := 4300.

(** [str(n)] and [repr(n)] of an int: the interpreter refuses to write an int
    of more digits than the limit. *)
Definition int_repr (n : Z) : result string :=
  if int_max_str_digits <? digits n then
    Raise (ValueError ("Exceeds the limit (4300 digits) for integer string conversion; "
                       +:+ "use sys.set_int_max_str_digits() to increase the limit"))
  else Ok (string_of_Z n).

Fixpoint py_repr (v : pyval) : result string :=
  match v with
  | PNone => Ok "None"
  | PBool true => Ok "True"
  | PBool false => Ok "False"
  | PInt n => int_repr n
  | PFloat r => Ok r
  | PStr s => Ok (repr_str s)
  | PList l =>
      items ← mapM py_repr l;
      Ok ("[" +:+ join ", " items +:+ "]")
  | PDict d =>
      items ← mapM (fun kv => r ← py_repr (snd kv);
                              Ok (repr_str (fst kv) +:+ ": " +:+ r)) d;
      Ok ("{" +:+ join ", " items +:+ "}")
  end.

Definition py_str (v : pyval) : result string :=
  match v with
  | PStr s => Ok s
  | _ => py_repr v
  end.

(** *** [str.strip()] *)

(** [str.isspace] on one character (code points below 256). *)
Definition isspace (c : ascii) : bool :=
  let n := nat_of_ascii c in
  ((9 <=? n) && (n <=? 13)) || ((28 <=? n) && (n <=? 32)) || (n =? 133) || (n =? 160).

Fixpoint lstrip (s : string) : string :=
  match s with
  | EmptyString => EmptyString
  | String c s' => if isspace c then lstrip s' else s
  end.

Fixpoint rstrip (s : string) : string :=
  match s with
  | EmptyString => EmptyString
  | String c s' =>
      match rstrip s' with
      | EmptyString => if isspace c then EmptyString else String c EmptyString
      | r => String c r
      end
  end.

Definition strip (s : string) : string := rstrip (lstrip s).

Fixpoint all_space (s : string) : bool :=
  match s with
  | EmptyString => true
  | String c s' => isspace c && all_space s'
  end.

(** ** models.py *)

Record Task : Type := mkTask {
  id : string;
  description : string;
  created : string;
  completed : bool;
  tags : list pyval
}.

(** [Task.to_dict] *)
Definition to_dict (self : Task) : pyval :=
  PDict [ ("id", PStr (id self));
          ("description", PStr (description self));
          ("created", PStr (created self));
          ("completed", PBool (completed self));
          ("tags", PList (tags self)) ].

(** [Task.from_dict]; [now] is what [utc_now_iso()] returns during the call.
    [data.get] needs [data] to be a dict. *)
Definition from_dict (now : string) (data : pyval) : result Task :=
  match data with
  | PDict d =>
      id_ ← py_str (dict_get d "id" (PStr ""));
      description_ ← py_str (dict_get d "description" (PStr ""));
      created_ ← py_str (dict_get d "created" (PStr now));
      let completed_ := py_bool (dict_get d "completed" (PBool false)) in
      tags_ ← py_list (dict_get d "tags" (PList []));
      Ok (mkTask id_ description_ created_ completed_ tags_)
  | _ => Raise AttributeError
  end.

(** [Task.create]; [uuid_hex] is what [uuid.uuid4().hex] returns and [now]
    what [utc_now_iso()] returns, should the call ask for them. *)
Definition create (uuid_hex now : string) (description_ : string)
    (tags_ : option (list pyval)) (id_ : option string) (created_ : option string)
  : result Task :=
  if String.eqb description_ "" || String.eqb (strip description_) "" then
    Raise (ValueError "description must be non-empty")
  else
    Ok (mkTask (match id_ with Some i => i | None => uuid_hex end)
               (strip description_)
               (match created_ with Some c => c | None => now end)
               false
               (match tags_ with
                | Some ((_ :: _) as l) => l
                | Some [] | None => []
                end)).

(** ** The file system and what can go wrong with it *)

(** The bytes of a file, as [open(..., encoding="utf-8")] sees them: a text,
    or bytes that do not decode. *)
Inductive content : Type :=
| Text (s : string)
| NotUtf8.

Record filesystem : Type := mkFs {
  files : gmap string content;
  dirs : gset string
}.

(** [os.path.exists] *)
Definition path_exists (fs : filesystem) (p : string) : bool :=
  bool_decide (is_Some (files fs !! p)) || bool_decide (p ∈ dirs fs).

(** The step of one [save] at which the operating system fails, if any.
    [written] is the number of characters of the serialized text that had
    reached the temporary file by then. *)
Inductive write_fault : Type :=
| WriteOk
| MakedirsFails (msg : string)
| OpenFails (msg : string)
| DumpFails (written : nat) (msg : string)
| FlushFails (written : nat) (msg : string)
| FsyncFails (msg : string)
| CloseFails (msg : string)
| ReplaceFails (msg : string).

Inductive read_fault : Type :=
| ReadOk
| ReadFails (msg : string).

(** What one method call obtains from outside the program. *)
Record env : Type := mkEnv {
  now : string;             (* utc_now_iso() *)
  uuid_hex : string;        (* uuid.uuid4().hex *)
  rfault : read_fault;
  wfault : write_fault;
  mkdirs_made : nat;        (* the directories that a failing os.makedirs had made *)
  pfault : list string -> string -> option exn
                            (* what print raises, if it does, given the lines
                               printed so far and the line to print *)
}.

(** The library functions that are taken as given: [json.dumps] with
    [ensure_ascii=False, indent=2], [json.loads] (left: the text of the
    JSONDecodeError), [os.path.abspath] and [os.path.dirname]. *)
Class Lib : Type := {
  json_dumps : pyval -> string;
  json_loads : string -> string + pyval;
  abspath : string -> string;
  dirname : string -> string
}.

(** A computation on the file system that may raise. *)
Definition io (A : Type) : Type := filesystem -> filesystem * result A.

Global Instance io_ret : MRet io := fun _ a fs => (fs, Ok a).

Global Instance io_bind : MBind io := fun _ _ k m fs =>
  match m fs with
  | (fs', Ok a) => k a fs'
  | (fs', Raise e) => (fs', Raise e)
  end.

Definition io_raise {A : Type} (e : exn) : io A := fun fs => (fs, Raise e).

Definition io_lift {A : Type} (r : result A) : io A := fun fs => (fs, r).

(** [try: body except OSError as exc: handler(str(exc))] *)
Definition except_OSError {A : Type} (body : io A) (handler : string -> io A) : io A :=
  fun fs =>
    match body fs with
    | (fs', Raise (OSError msg)) => handler msg fs'
    | r => r
    end.

Definition set_file (p : string) (c : content) (fs : filesystem) : filesystem :=
  mkFs (<[p := c]> (files fs)) (dirs fs).

Definition is_a_directory (p : string) : string :=
  "[Errno 21] Is a directory: " +:+ repr_str p.

(** The directories above [p], the nearest first: the paths that end before
    a separator of [p], the root left out.  Above [/data/sub/deep] are
    [/data/sub] and [/data]. *)
Fixpoint heads (before rest : string) (acc : list string) : list string :=
  match rest with
  | EmptyString => acc
  | String c r =>
      heads (before +:+ String c "") r
            (if Ascii.eqb c "/"%char && negb (String.eqb before "")
             then before :: acc else acc)
  end.

Definition parents (p : string) : list string := heads "" p [].

(** The directories above a path that [os.makedirs] finds missing: it climbs
    until it meets a path that exists. *)
Fixpoint missing_above (fs : filesystem) (above : list string) : list string :=
  match above with
  | [] => []
  | a :: r => if path_exists fs a then [] else a :: missing_above fs r
  end.

(** The missing directories above [p] in the order in which [os.makedirs]
    makes them, the farthest first. *)
Definition to_make_above (fs : filesystem) (p : string) : list string :=
  rev (missing_above fs (parents p)).

Definition add_dirs (l : list string) (fs : filesystem) : filesystem :=
  mkFs (files fs) (list_to_set l ∪ dirs fs).

Definition file_exists (p : string) : string :=
  "[Errno 17] File exists: " +:+ repr_str p.

(** [os.makedirs(p, exist_ok=True)] on the path that [os.path.abspath]
    returned: the missing directories above [p] are made, then [p] itself.
    When a [mkdir] fails, the [made] directories before it stay; a file at
    [p] makes the last [mkdir] fail. *)
Definition os_makedirs (flt : write_fault) (made : nat) (p : string) : io unit := fun fs =>
  match flt with
  | MakedirsFails msg => (add_dirs (take made (to_make_above fs p)) fs, Raise (OSError msg))
  | _ =>
      if bool_decide (is_Some (files fs !! p)) then
        (add_dirs (to_make_above fs p) fs, Raise (OSError (file_exists p)))
      else (add_dirs (to_make_above fs p ++ [p]) fs, Ok tt)
  end.

(** [open(p, "w", encoding="utf-8")]: the file is created, or emptied. *)
Definition open_w (flt : write_fault) (p : string) : io unit := fun fs =>
  match flt with
  | OpenFails msg => (fs, Raise (OSError msg))
  | _ =>
      if bool_decide (p ∈ dirs fs) then (fs, Raise (OSError (is_a_directory p)))
      else (set_file p (Text "") fs, Ok tt)
  end.

(** [json.dump(data, f, ...)] on the file opened at [p], [text] being the
    serialized data.  The file object buffers: when the failure comes with
    the flush, a part of the text has reached the file and the rest has
    not. *)
Definition file_dump (flt : write_fault) (p : string) (text : string) : io unit := fun fs =>
  match flt with
  | DumpFails n msg => (set_file p (Text (substring 0 n text)) fs, Raise (OSError msg))
  | FlushFails n _ => (set_file p (Text (substring 0 n text)) fs, Ok tt)
  | _ => (set_file p (Text text) fs, Ok tt)
  end.

(** [f.flush()] *)
Definition file_flush (flt : write_fault) : io unit := fun fs =>
  match flt with
  | FlushFails _ msg => (fs, Raise (OSError msg))
  | _ => (fs, Ok tt)
  end.

(** [os.fsync(f.fileno())] *)
Definition os_fsync (flt : write_fault) : io unit := fun fs =>
  match flt with
  | FsyncFails msg => (fs, Raise (OSError msg))
  | _ => (fs, Ok tt)
  end.

(** The end of the [with] block: [f.close()] *)
Definition file_close (flt : write_fault) : io unit := fun fs =>
  match flt with
  | CloseFails msg => (fs, Raise (OSError msg))
  | _ => (fs, Ok tt)
  end.

(** [os.replace(src, dst)] *)
Definition os_replace (flt : write_fault) (src dst : string) : io unit := fun fs =>
  match flt with
  | ReplaceFails msg => (fs, Raise (OSError msg))
  | _ =>
      match files fs !! src with
      | None => (fs, Raise (OSError ("[Errno 2] No such file or directory: "
                                     +:+ repr_str src +:+ " -> " +:+ repr_str dst)))
      | Some c =>
          if bool_decide (dst ∈ dirs fs) then
            (fs, Raise (OSError ("[Errno 21] Is a directory: "
                                 +:+ repr_str src +:+ " -> " +:+ repr_str dst)))
          else (mkFs (<[dst := c]> (delete src (files fs))) (dirs fs), Ok tt)
      end
  end.

(** [open(p, "r", encoding="utf-8")] followed by [f.read()]; a path that
    exists without being a file is a directory. *)
Definition read_text (flt : read_fault) (fs : filesystem) (p : string) : result string :=
  match flt with
  | ReadFails msg => Raise (OSError msg)
  | ReadOk =>
      match files fs !! p with
      | None => Raise (OSError (is_a_directory p))
      | Some NotUtf8 => Raise UnicodeDecodeError
      | Some (Text s) => Ok s
      end
  end.

(** ** storage.py *)

Record Storage : Type := mkStorage { path : string }.

(** The outcome of the [try] block of [Storage.load]. *)
Inductive load_outcome : Type :=
| Loaded (data : pyval)
| JSONDecodeError (msg : string)
| LoadRaises (e : exn).

(** The dict that [Storage.save] serializes. *)
Definition save_data (updated : string) (tasks_ : list Task) : pyval :=
  PDict [ ("version", PStr "1.0");
          ("updated", PStr updated);
          ("tasks", PList (map to_dict tasks_)) ].

(** The values without numbers whose dicts have distinct keys. *)
Fixpoint plain (v : pyval) : bool :=
  match v with
  | PNone | PBool _ | PStr _ => true
  | PInt _ | PFloat _ => false
  | PList l => forallb plain l
  | PDict d => forallb (fun kv => plain (snd kv)) d && bool_decide (NoDup (map fst d))
  end.

Section storage.
Context {L : Lib}.

(** [with open(self.path, "r", encoding="utf-8") as f: data = json.load(f)] *)
Definition json_load (flt : read_fault) (fs : filesystem) (p : string) : load_outcome :=
  match read_text flt fs p with
  | Raise e => LoadRaises e
  | Ok s =>
      match json_loads s with
      | inl msg => JSONDecodeError msg
      | inr data => Loaded data
      end
  end.

(** [Storage._ensure_parent] *)
Definition _ensure_parent (e : env) (self : Storage) : io unit := fun fs =>
  let parent := dirname (abspath (path self)) in
  if negb (String.eqb parent "") && negb (path_exists fs parent) then
    os_makedirs (wfault e) (mkdirs_made e) parent fs
  else (fs, Ok tt).

(** [Storage.load] *)
Definition load (e : env) (fs : filesystem) (self : Storage) : result (list Task) :=
  if negb (path_exists fs (path self)) then Ok []
  else
    match json_load (rfault e) fs (path self) with
    | JSONDecodeError exc =>
        Raise (StorageError ("invalid JSON in " +:+ path self +:+ ": " +:+ exc))
    | LoadRaises (OSError exc) =>
        Raise (StorageError ("could not read " +:+ path self +:+ ": " +:+ exc))
    | LoadRaises exc => Raise exc
    | Loaded data =>
        let tasks_data :=
          match data with
          | PDict d => dict_get_opt d "tasks"
          | _ => PNone
          end in
        match tasks_data with
        | PNone => Raise (StorageError ("unexpected file format in " +:+ path self))
        | _ => items ← py_iter tasks_data; mapM (from_dict (now e)) items
        end
    end.

(** [Storage.save] *)
Definition save (e : env) (self : Storage) (tasks_ : list Task) : io unit :=
  _ ← _ensure_parent e self;
  meta ← io_lift (create (uuid_hex e) (now e) "_meta_" None None None);
  let data := save_data (created meta) tasks_ in
  let tmp_path := path self +:+ ".tmp" in
  except_OSError
    (_ ← open_w (wfault e) tmp_path;
     _ ← file_dump (wfault e) tmp_path (json_dumps data);
     _ ← file_flush (wfault e);
     _ ← os_fsync (wfault e);
     _ ← file_close (wfault e);
     os_replace (wfault e) tmp_path (path self))
    (fun exc => io_raise (StorageError ("could not write " +:+ path self +:+ ": " +:+ exc))).

(** [Storage.add_task] *)
Definition add_task (e : env) (self : Storage) (task : Task) : io unit :=
  tasks_ ← (fun fs => (fs, load e fs self));
  let tasks_ := tasks_ ++ [task] in
  save e self tasks_.

(** The loop of [Storage.get_task_by_id]. *)
Fixpoint first_with_id (tasks_ : list Task) (id_ : string) : option Task :=
  match tasks_ with
  | [] => None
  | t :: rest => if String.eqb (id t) id_ then Some t else first_with_id rest id_
  end.

(** [Storage.get_task_by_id]; [None] is Python's [None]. *)
Definition get_task_by_id (e : env) (fs : filesystem) (self : Storage) (id_ : string)
  : result (option Task) :=
  tasks_ ← load e fs self;
  Ok (first_with_id tasks_ id_).
End storage.

(** ** A JSON writer and reader

    An instance of [Lib] to run the storage methods on: a writer laid out
    like [json.dumps(..., ensure_ascii=False, indent=2)] and a reader for
    JSON texts whose numbers are integers and whose [\u] escapes are below
    256 (the characters of the model).  The paths it is given are taken to
    be absolute, with [/] as the separator. *)
Module RefJson.

Definition chars (s : string) : list ascii := list_ascii_of_string s.

(** *** Writer *)

Definition escape_char (c : ascii) : list ascii :=
  if Ascii.eqb c dquote then ["\"%char; dquote]
  else if Ascii.eqb c "\"%char then chars "\\"
  else if Ascii.eqb c "008"%char then chars "\b"
  else if Ascii.eqb c "012"%char then chars "\f"
  else if Ascii.eqb c "010"%char then chars "\n"
  else if Ascii.eqb c "013"%char then chars "\r"
  else if Ascii.eqb c "009"%char then chars "\t"
  else if (nat_of_ascii c <? 32)%nat then chars "\u00" ++ chars (hex2 c)
  else [c].

Definition emit_str (s : string) : list ascii :=
  dquote :: flat_map escape_char (chars s) ++ [dquote].

Definition newline_indent (lvl : nat) : list ascii :=
  "010"%char :: repeat " "%char (2 * lvl).

(** The items of a non-empty container, each on a line of its own. *)
Fixpoint emit_items (lvl : nat) (xs : list (list ascii)) : list ascii :=
  match xs with
  | [] => []
  | [x] => newline_indent lvl ++ x
  | x :: xs' => newline_indent lvl ++ x ++ ","%char :: emit_items lvl xs'
  end.

Definition emit_float (r : string) : list ascii :=
  if String.eqb r "nan" then chars "NaN"
  else if String.eqb r "inf" then chars "Infinity"
  else if String.eqb r "-inf" then chars "-Infinity"
  else chars r.

Fixpoint emit (lvl : nat) (v : pyval) : list ascii :=
  match v with
  | PNone => chars "null"
  | PBool true => chars "true"
  | PBool false => chars "false"
  | PInt n => chars (string_of_Z n)
  | PFloat r => emit_float r
  | PStr s => emit_str s
  | PList [] => chars "[]"
  | PList l =>
      "["%char :: emit_items (S lvl) (map (emit (S lvl)) l)
        ++ newline_indent lvl ++ ["]"%char]
  | PDict [] => chars "{}"
  | PDict d =>
      "{"%char :: emit_items (S lvl)
                    (map (fun kv => emit_str (fst kv) ++ chars ": " ++ emit (S lvl) (snd kv)) d)
        ++ newline_indent lvl ++ ["}"%char]
  end.

Definition dumps (v : pyval) : string := string_of_list_ascii (emit 0 v).

(** *** Reader *)

(** The outcome of reading a prefix of the input: a value and the input
    left, or what was expected and the input left at the point of
    failure. *)
Inductive parsed (A : Type) : Type :=
| Parsed (a : A) (rest : list ascii)
| Failed (msg : string) (rest : list ascii).
Arguments Parsed {A} a rest.
Arguments Failed {A} msg rest.

Definition is_ws (c : ascii) : bool :=
  Ascii.eqb c " "%char || Ascii.eqb c "009"%char
  || Ascii.eqb c "010"%char || Ascii.eqb c "013"%char.

Fixpoint skip_ws (s : list ascii) : list ascii :=
  match s with
  | c :: r => if is_ws c then skip_ws r else s
  | [] => []
  end.

Definition hex_value (c : ascii) : option nat :=
  let n := nat_of_ascii c in
  if (48 <=? n)%nat && (n <=? 57)%nat then Some (n - 48)
  else if (97 <=? n)%nat && (n <=? 102)%nat then Some (n - 87)
  else if (65 <=? n)%nat && (n <=? 70)%nat then Some (n - 55)
  else None.

Definition hex4 (a b c d : ascii) : option nat :=
  match hex_value a, hex_value b, hex_value c, hex_value d with
  | Some x, Some y, Some z, Some w => Some (((x * 16 + y) * 16 + z) * 16 + w)
  | _, _, _, _ => None
  end.

Definition unescape (c : ascii) : option ascii :=
  if Ascii.eqb c dquote then Some dquote
  else if Ascii.eqb c "\"%char then Some "\"%char
  else if Ascii.eqb c "/"%char then Some "/"%char
  else if Ascii.eqb c "b"%char then Some "008"%char
  else if Ascii.eqb c "f"%char then Some "012"%char
  else if Ascii.eqb c "n"%char then Some "010"%char
  else if Ascii.eqb c "r"%char then Some "013"%char
  else if Ascii.eqb c "t"%char then Some "009"%char
  else None.

Definition cons_parsed (c : ascii) (p : parsed (list ascii)) : parsed (list ascii) :=
  match p with
  | Parsed cs rest => Parsed (c :: cs) rest
  | Failed msg rest => Failed msg rest
  end.

(** The characters of a string literal, read from just after its opening
    quote; [start] is the input at the opening quote. *)
Fixpoint read_str (start : list ascii) (s : list ascii) : parsed (list ascii) :=
  match s with
  | [] => Failed "Unterminated string starting at" start
  | c :: r =>
      if Ascii.eqb c dquote then Parsed [] r
      else if Ascii.eqb c "\"%char then
        match r with
        | [] => Failed "Unterminated string starting at" start
        | e :: r1 =>
            if Ascii.eqb e "u"%char then
              match r1 with
              | h1 :: h2 :: h3 :: h4 :: r2 =>
                  match hex4 h1 h2 h3 h4 with
                  | Some n =>
                      if (n <? 256)%nat then cons_parsed (ascii_of_nat n) (read_str start r2)
                      else Failed "Invalid \uXXXX escape" r1
                  | None => Failed "Invalid \uXXXX escape" r1
                  end
              | _ => Failed "Invalid \uXXXX escape" r1
              end
            else
              match unescape e with
              | Some c' => cons_parsed c' (read_str start r1)
              | None => Failed ("Invalid \escape: " +:+ repr_str (String e "")) r
              end
        end
      else if (nat_of_ascii c <? 32)%nat then
        Failed ("Invalid control character " +:+ repr_str (String c "") +:+ " at") s
      else cons_parsed c (read_str start r)
  end.

Definition is_digit (c : ascii) : bool :=
  (48 <=? nat_of_ascii c)%nat && (nat_of_ascii c <=? 57)%nat.

Fixpoint read_digits (acc : Z) (s : list ascii) : Z * list ascii :=
  match s with
  | c :: r =>
      if is_digit c then read_digits (10 * acc + Z.of_nat (nat_of_ascii c - 48)) r
      else (acc, s)
  | [] => (acc, [])
  end.

(** An integer literal: an optional minus sign, then 0 or digits that
    do not start with 0. *)
Definition read_int (s : list ascii) : option (Z * list ascii) :=
  let '(neg, s1) :=
    match s with
    | c :: r => if Ascii.eqb c "-"%char then (true, r) else (false, s)
    | [] => (false, s)
    end in
  match s1 with
  | c :: r =>
      if Ascii.eqb c "0"%char then Some (0%Z, r)
      else if is_digit c then
        let '(n, r') := read_digits 0 s1 in
        Some (if neg then (- n)%Z else n, r')
      else None
  | [] => None
  end.

Fixpoint strip_prefix (p s : list ascii) : option (list ascii) :=
  match p, s with
  | [], _ => Some s
  | a :: p', b :: s' => if Ascii.eqb a b then strip_prefix p' s' else None
  | _ :: _, [] => None
  end.

(** [d[k] = v] *)
Fixpoint dict_set (d : list (string * pyval)) (k : string) (v : pyval)
  : list (string * pyval) :=
  match d with
  | [] => [(k, v)]
  | (k', v') :: d' => if String.eqb k' k then (k', v) :: d' else (k', v') :: dict_set d' k v
  end.

(** [dict(pairs)] *)
Definition dict_of_pairs (pairs : list (string * pyval)) : list (string * pyval) :=
  fold_left (fun d kv => dict_set d (fst kv) (snd kv)) pairs [].

Section containers.
Variable scan_once : list ascii -> parsed pyval.

(** The rest of an array, from its first value on. *)
Fixpoint read_array (fuel : nat) (s : list ascii) : parsed (list pyval) :=
  match fuel with
  | 0 => Failed "Expecting value" s
  | S fuel' =>
      match scan_once s with
      | Failed msg at_ => Failed msg at_
      | Parsed v r =>
          match skip_ws r with
          | c :: r1 =>
              if Ascii.eqb c "]"%char then Parsed [v] r1
              else if Ascii.eqb c ","%char then
                match read_array fuel' (skip_ws r1) with
                | Parsed vs r2 => Parsed (v :: vs) r2
                | Failed msg at_ => Failed msg at_
                end
              else Failed "Expecting ',' delimiter" (c :: r1)
          | [] => Failed "Expecting ',' delimiter" []
          end
      end
  end.

(** The rest of an object, from the opening quote of a key on. *)
Fixpoint read_object (fuel : nat) (s : list ascii) : parsed (list (string * pyval)) :=
  match fuel with
  | 0 => Failed "Expecting value" s
  | S fuel' =>
      match s with
      | q :: r0 =>
          if Ascii.eqb q dquote then
            match read_str s r0 with
            | Failed msg at_ => Failed msg at_
            | Parsed k r =>
                match skip_ws r with
                | c :: r1 =>
                    if Ascii.eqb c ":"%char then
                      match scan_once (skip_ws r1) with
                      | Failed msg at_ => Failed msg at_
                      | Parsed v r2 =>
                          match skip_ws r2 with
                          | c' :: r3 =>
                              if Ascii.eqb c' "}"%char then
                                Parsed [(string_of_list_ascii k, v)] r3
                              else if Ascii.eqb c' ","%char then
                                match read_object fuel' (skip_ws r3) with
                                | Parsed kvs r4 =>
                                    Parsed ((string_of_list_ascii k, v) :: kvs) r4
                                | Failed msg at_ => Failed msg at_
                                end
                              else Failed "Expecting ',' delimiter" (c' :: r3)
                          | [] => Failed "Expecting ',' delimiter" []
                          end
                      end
                    else Failed "Expecting ':' delimiter" (c :: r1)
                | [] => Failed "Expecting ':' delimiter" []
                end
            end
          else Failed "Expecting property name enclosed in double quotes" s
      | [] => Failed "Expecting property name enclosed in double quotes" s
      end
  end.
End containers.

(** One value at the head of the input. *)
Fixpoint scan (fuel : nat) (s : list ascii) : parsed pyval :=
  match fuel with
  | 0 => Failed "Expecting value" s
  | S fuel' =>
      match s with
      | [] => Failed "Expecting value" s
      | c :: r =>
          if Ascii.eqb c dquote then
            match read_str s r with
            | Parsed cs r' => Parsed (PStr (string_of_list_ascii cs)) r'
            | Failed msg at_ => Failed msg at_
            end
          else if Ascii.eqb c "{"%char then
            match skip_ws r with
            | c' :: r' =>
                if Ascii.eqb c' "}"%char then Parsed (PDict []) r'
                else
                  match read_object (scan fuel') fuel' (c' :: r') with
                  | Parsed kvs r'' => Parsed (PDict (dict_of_pairs kvs)) r''
                  | Failed msg at_ => Failed msg at_
                  end
            | [] => Failed "Expecting property name enclosed in double quotes" []
            end
          else if Ascii.eqb c "["%char then
            match skip_ws r with
            | c' :: r' =>
                if Ascii.eqb c' "]"%char then Parsed (PList []) r'
                else
                  match read_array (scan fuel') fuel' (c' :: r') with
                  | Parsed vs r'' => Parsed (PList vs) r''
                  | Failed msg at_ => Failed msg at_
                  end
            | [] => Failed "Expecting value" []
            end
          else
            match strip_prefix (chars "null") s, strip_prefix (chars "true") s,
                  strip_prefix (chars "false") s with
            | Some r', _, _ => Parsed PNone r'
            | _, Some r', _ => Parsed (PBool true) r'
            | _, _, Some r' => Parsed (PBool false) r'
            | None, None, None =>
                match read_int s with
                | Some (n, r') => Parsed (PInt n) r'
                | None => Failed "Expecting value" s
                end
            end
      end
  end.

Definition string_of_nat (n : nat) : string := NilZero.string_of_uint (Nat.to_uint n).

(** The line of the last character of [consumed], and the column after it. *)
Fixpoint line_col (consumed : list ascii) (line col : nat) : nat * nat :=
  match consumed with
  | [] => (line, col)
  | c :: r => if Ascii.eqb c "010"%char then line_col r (S line) 1 else line_col r line (S col)
  end.

(** [str(JSONDecodeError(msg, doc, pos))] *)
Definition decode_error (msg : string) (doc rest : list ascii) : string :=
  let pos := (length doc - length rest)%nat in
  let '(line, col) := line_col (firstn pos doc) 1 1 in
  msg +:+ ": line " +:+ string_of_nat line +:+ " column " +:+ string_of_nat col
      +:+ " (char " +:+ string_of_nat pos +:+ ")".

Definition loads (text : string) : string + pyval :=
  let doc := chars text in
  match scan (length doc) (skip_ws doc) with
  | Failed msg rest => inl (decode_error msg doc rest)
  | Parsed v rest =>
      match skip_ws rest with
      | [] => inr v
      | rest' => inl (decode_error "Extra data" doc rest')
      end
  end.

(** [os.path.dirname] of an absolute path. *)
Fixpoint dirname_chars (s : list ascii) : list ascii :=
  match s with
  | [] => []
  | c :: r =>
      match dirname_chars r with
      | [] => if Ascii.eqb c "/"%char then [c] else []
      | d => c :: d
      end
  end.

Definition ref_dirname (p : string) : string :=
  let d := dirname_chars (chars p) in
  match d with
  | [_] => string_of_list_ascii d
  | _ => string_of_list_ascii (removelast d)
  end.

Definition lib : Lib :=
  {| json_dumps := dumps; json_loads := loads;
     abspath := fun p => p; dirname := ref_dirname |}.

(** *** Vocabulary of the statements about the writer *)

(** A text that begins with the first character of a value. *)
Definition starts_value (s : list ascii) : Prop :=
  match s with
  | c :: _ => is_ws c = false ∧ c ≠ "]"%char ∧ c ≠ "}"%char
  | [] => False
  end.

(** The text of the items of a container after the white space that
    precedes the first item. *)
Definition items_tail (lvl : nat) (xs : list (list ascii)) : list ascii :=
  match xs with
  | [] => []
  | _ :: _ => ","%char :: emit_items lvl xs
  end.

(** The text of one entry of a dict. *)
Definition emit_entry (lvl : nat) (kv : string * pyval) : list ascii :=
  emit_str (fst kv) ++ chars ": " ++ emit lvl (snd kv).
End RefJson.

(** ** Builtins that the commands use *)

(** [s.split(sep)] for a separator of one character. *)
Fixpoint split_on (sep : ascii) (s : string) : list string :=
  match s with
  | EmptyString => [""]
  | String c r =>
      if Ascii.eqb c sep then "" :: split_on sep r
      else
        match split_on sep r with
        | x :: xs => String c x :: xs
        | [] => [String c ""]
        end
  end.

(** [str.lower] on one character (code points below 256): the letters A to
    Z, and the capital letters from 192 to 222 other than the multiplication
    sign. *)
Definition lower_char (c : ascii) : ascii :=
  let n := nat_of_ascii c in
  if ((65 <=? n) && (n <=? 90)) || ((192 <=? n) && (n <=? 222) && negb (n =? 215))
  then ascii_of_nat (n + 32)
  else c.

(** [s.lower()] *)
Fixpoint lower (s : string) : string :=
  match s with
  | EmptyString => EmptyString
  | String c r => String (lower_char c) (lower r)
  end.

(** [x.lower()] on a value: only a str has the method. *)
Definition py_lower (v : pyval) : result pyval :=
  match v with
  | PStr s => Ok (PStr (lower s))
  | _ => Raise AttributeError
  end.

(** [q in hay] for two strs. *)
Fixpoint str_contains (hay q : string) : bool :=
  String.prefix q hay ||
  match hay with
  | EmptyString => false
  | String _ r => str_contains r q
  end.

(** [s in l] for a str and a list: a str is equal to an equal str only. *)
Definition str_in (s : string) (l : list pyval) : bool :=
  existsb (fun v => match v with PStr s' => String.eqb s' s | _ => false end) l.

(** A list comprehension whose condition may raise. *)
Fixpoint filterM {A : Type} (f : A -> result bool) (l : list A) : result (list A) :=
  match l with
  | [] => Ok []
  | a :: l' =>
      match f a with
      | Raise e => Raise e
      | Ok b =>
          match filterM f l' with
          | Raise e => Raise e
          | Ok rest => Ok (if b then a :: rest else rest)
          end
      end
  end.

(** ** The console *)

(** The file system and the lines printed so far. *)
Record world : Type := mkWorld {
  disk : filesystem;
  stdout : list string
}.

(** A computation on the file system and the console that may raise. *)
Definition prog (A : Type) : Type := world -> world * result A.

Global Instance prog_ret : MRet prog := fun _ a w => (w, Ok a).

Global Instance prog_bind : MBind prog := fun _ _ k m w =>
  match m w with
  | (w', Ok a) => k a w'
  | (w', Raise e) => (w', Raise e)
  end.

Definition prog_raise {A : Type} (e : exn) : prog A := fun w => (w, Raise e).

(** [print(line)]: the line reaches the console, or the console refuses it
    (a text that it cannot encode, a closed pipe) and nothing of it is
    written. *)
Definition print (e : env) (line : string) : prog unit := fun w =>
  match pfault e (stdout w) line with
  | Some exc => (w, Raise exc)
  | None => (mkWorld (disk w) (stdout w ++ [line]), Ok tt)
  end.

(** A storage method run from a command. *)
Definition on_disk {A : Type} (m : io A) : prog A := fun w =>
  match m (disk w) with
  | (fs, r) => (mkWorld fs (stdout w), r)
  end.

(** The body of a [try] whose handler is [except Exception as exc]: the
    outcome, for the handler to look at. *)
Definition attempt {A : Type} (body : prog A) : prog (result A) := fun w =>
  match body w with
  | (w', r) => (w', Ok r)
  end.

(** [for x in l: body(x)] *)
Fixpoint for_each {A : Type} (l : list A) (body : A -> prog unit) : prog unit :=
  match l with
  | [] => mret tt
  | x :: l' => _ ← body x; for_each l' body
  end.

(** The texts that the commands print and the model cannot spell: [str(exc)]
    of a built-in exception, which [exn] does not carry, and two literals
    with characters above 255. *)
Class Texts : Type := {
  builtin_message : exn -> string;
  dry_run_banner : string;        (* add.py, line 28 *)
  done_mark : string              (* list.py, line 54 *)
}.

(** [str(exc)] *)
Definition exc_str {T : Texts} (e : exn) : string :=
  match e with
  | StorageError msg | ValueError msg | OSError msg => msg
  | TypeError | AttributeError | UnicodeDecodeError | UnicodeEncodeError =>
      builtin_message e
  end.

(** [getattr(args, name, False)] of a flag that may be missing. *)
Definition flag (value : option bool) : bool :=
  match value with
  | Some b => b
  | None => false
  end.

(** The context that [main] hands to a command. *)
Record Ctx : Type := mkCtx {
  data_file : string;
  debug : bool;
  storage : Storage
}.

(** ** commands/add.py *)
Module add_cmd.

(** The attributes of [args] that [run] reads. *)
Record Args : Type := mkArgs {
  arg_description : string;
  arg_tags : string;
  arg_id : option string;
  arg_dry_run : option bool
}.

(** The tags of [run]: the pieces between commas, stripped, without the
    empty ones. *)
Definition split_tags (tags_ : string) : list string :=
  if String.eqb tags_ "" then []
  else List.filter (fun t => negb (String.eqb t "")) (map strip (split_on ","%char tags_)).

Section run.
Context {L : Lib} {T : Texts}.

(** [run(args, ctx)] *)
Definition run (e : env) (args : Args) (ctx : Ctx) : prog Z :=
  let tags_ := split_tags (arg_tags args) in
  match create (uuid_hex e) (now e) (arg_description args)
               (Some (map PStr tags_)) (arg_id args) None with
  | Raise (ValueError exc) =>
      _ ← print e ("Invalid input: " +:+ exc);
      mret 2%Z
  | Raise exc => prog_raise exc
  | Ok task =>
      if flag (arg_dry_run args) then
        _ ← print e dry_run_banner;
        line ← (fun w => (w, py_str (to_dict task)));   (* print calls str *)
        _ ← print e line;
        mret 0%Z
      else
        saved ← attempt (on_disk (add_task e (storage ctx) task));
        match saved with
        | Raise exc =>
            _ ← print e ("Could not save task: " +:+ exc_str exc);
            mret 3%Z
        | Ok _ =>
            _ ← print e ("Added task " +:+ id task +:+ ": " +:+ description task);
            mret 0%Z
        end
  end.
End run.
End add_cmd.

(** ** commands/list.py *)
Module list_cmd.

Record Args : Type := mkArgs {
  arg_tag : option string;
  arg_completed : option bool;
  arg_incomplete : option bool;
  arg_json : option bool
}.

(** [_filter_tasks(tasks, tag, completed_only)]; an empty [tag] filters
    nothing. *)
Definition _filter_tasks (tasks_ : list Task) (tag : option string)
    (completed_only : option bool) : list Task :=
  let out := tasks_ in
  let out :=
    match tag with
    | Some (String _ _ as tg) => List.filter (fun t => str_in tg (tags t)) out
    | Some EmptyString | None => out
    end in
  let out :=
    match completed_only with
    | Some true => List.filter (fun t => completed t) out
    | _ => out
    end in
  let out :=
    match completed_only with
    | Some false => List.filter (fun t => negb (completed t)) out
    | _ => out
    end in
  out.

Section run.
Context {L : Lib} {T : Texts}.

(** One line of the table. *)
Definition row (t : Task) : string :=
  let created_short := hd "" (split_on "T"%char (created t)) in
  let mark := if completed t then done_mark else " " in
  substring 0 8 (id t) +:+ "  " +:+ created_short +:+ "    " +:+ mark +:+ "  "
    +:+ description t.

(** [run(args, ctx)] *)
Definition run (e : env) (args : Args) (ctx : Ctx) : prog Z :=
  loaded ← attempt (on_disk (fun fs => (fs, load e fs (storage ctx))));
  match loaded with
  | Raise exc =>
      _ ← print e ("Could not load tasks: " +:+ exc_str exc);
      mret 3%Z
  | Ok tasks_ =>
      let completed_only := None in
      let completed_only := if flag (arg_completed args) then Some true else completed_only in
      let completed_only := if flag (arg_incomplete args) then Some false else completed_only in
      let tasks_ := _filter_tasks tasks_ (arg_tag args) completed_only in
      if flag (arg_json args) then
        _ ← print e (json_dumps (PList (map to_dict tasks_)));
        mret 0%Z
      else
        _ ← print e "ID  CREATED               C  DESCRIPTION";
        _ ← for_each tasks_ (fun t => print e (row t));
        mret 0%Z
  end.
End run.
End list_cmd.

(** ** commands/search.py *)
Module search_cmd.

Record Args : Type := mkArgs {
  arg_query : string;
  arg_field : string;
  arg_ignore_case : option bool;
  arg_json : option bool
}.

(** [_matches(task, query, field, ignore_case)] *)
Definition _matches (task : Task) (query field : string) (ignore_case : bool)
  : result bool :=
  let q := if ignore_case then lower query else query in
  if String.eqb field "description" then
    let hay := if ignore_case then lower (description task) else description task in
    Ok (str_contains hay q)
  else if String.eqb field "tags" then
    tags_ ← (if ignore_case then mapM py_lower (tags task) else Ok (tags task));
    Ok (str_in q tags_)
  else Ok false.

Section run.
Context {L : Lib} {T : Texts}.

(** [run(args, ctx)] *)
Definition run (e : env) (args : Args) (ctx : Ctx) : prog Z :=
  loaded ← attempt (on_disk (fun fs => (fs, load e fs (storage ctx))));
  match loaded with
  | Raise exc =>
      _ ← print e ("Could not load tasks: " +:+ exc_str exc);
      mret 3%Z
  | Ok tasks_ =>
      matches ← (fun w =>
        (w, filterM (fun t => _matches t (arg_query args) (arg_field args)
                                (flag (arg_ignore_case args))) tasks_));
      if flag (arg_json args) then
        _ ← print e (json_dumps (PList (map to_dict matches)));
        mret 0%Z
      else
        _ ← for_each matches
              (fun t => print e (substring 0 8 (id t) +:+ ": " +:+ description t));
        mret 0%Z
  end.
End run.
End search_cmd.

(** ** cli.py *)

(** What [parser.parse_args] returns: the command with its arguments, the
    data file and the debug flag. *)
Inductive Command : Type :=
| CmdAdd (args : add_cmd.Args)
| CmdList (args : list_cmd.Args)
| CmdSearch (args : search_cmd.Args).

Record Namespace : Type := mkNamespace {
  ns_data_file : string;
  ns_debug : option bool;
  ns_command : Command
}.

Section main.
Context {L : Lib} {T : Texts}.

(** [main], from the parsed arguments on. *)
Definition main (e : env) (args : Namespace) : prog Z :=
  let ctx := mkCtx (ns_data_file args) (flag (ns_debug args))
                   (mkStorage (ns_data_file args)) in
  outcome ← attempt
    (match ns_command args with
     | CmdAdd a => add_cmd.run e a ctx
     | CmdList a => list_cmd.run e a ctx
     | CmdSearch a => search_cmd.run e a ctx
     end);
  match outcome with
  | Ok code => mret code
  | Raise exc =>
      if debug ctx then prog_raise exc
      else
        _ ← print e ("Error: " +:+ exc_str exc);
        mret 1%Z
  end.
End main.

(** ** Vocabulary of the statements *)

Definition starts_with_space (s : string) : bool :=
  match s with
  | EmptyString => false
  | String c _ => isspace c
  end.

Fixpoint ends_with_space (s : string) : bool :=
  match s with
  | EmptyString => false
  | String c EmptyString => isspace c
  | String _ r => ends_with_space r
  end.

(** The values that [str(x)] and [repr(x)] can write: no int in them has more
    digits than the limit. *)
Fixpoint writable (v : pyval) : bool :=
  match v with
  | PInt n => digits n <=? int_max_str_digits
  | PList l => forallb writable l
  | PDict d => forallb (fun kv => writable (snd kv)) d
  | PNone | PBool _ | PFloat _ | PStr _ => true
  end.

(** The values that are no list and no dict. *)
Definition scalar (v : pyval) : bool :=
  match v with
  | PList _ | PDict _ => false
  | PNone | PBool _ | PInt _ | PFloat _ | PStr _ => true
  end.

(** The values that [str(x)] writes whatever the state of the interpreter:
    [None], a bool, a float, a str, and an int of no more digits than the
    limit.  (Whether it writes a list or a dict depends also on how deep that
    is nested and how deep the call is.) *)
Definition str_writes (v : pyval) : bool :=
  match v with
  | PInt n => digits n <=? int_max_str_digits
  | PList _ | PDict _ => false
  | PNone | PBool _ | PFloat _ | PStr _ => true
  end.

(** The maps whose values under [id], [description] and [created], where
    present, are scalars, and those where [str] writes them. *)
Definition texts_scalar (d : list (string * pyval)) : bool :=
  forallb (fun k => match dict_lookup d k with Some v => scalar v | None => true end)
          ["id"; "description"; "created"].

Definition texts_plain (d : list (string * pyval)) : bool :=
  forallb (fun k => match dict_lookup d k with Some v => str_writes v | None => true end)
          ["id"; "description"; "created"].

(** What the console holds after [print] was called for each of [lines] in
    turn, [out] being what it held before, and the exception of the first
    line that it refused, after which no line is printed. *)
Fixpoint print_lines (e : env) (lines : list string) (out : list string)
  : list string * option exn :=
  match lines with
  | [] => (out, None)
  | line :: rest =>
      match pfault e out line with
      | Some exc => (out, Some exc)
      | None => print_lines e rest (out ++ [line])
      end
  end.

(** The end of a command that prints [lines] and returns [code]: the lines
    are on the console and the code is returned, or the console refused a
    line and the exception of [print] is raised after the lines before it.
    The disk is not touched. *)
Definition prints_then (e : env) (lines : list string) (code : Z) (w : world)
  : world * result Z :=
  match print_lines e lines (stdout w) with
  | (out, None) => (mkWorld (disk w) out, Ok code)
  | (out, Some exc) => (mkWorld (disk w) out, Raise exc)
  end.

(** The values that [list(x)] accepts. *)
Definition iterable (v : pyval) : bool :=
  match v with
  | PList _ | PStr _ | PDict _ => true
  | PNone | PBool _ | PInt _ | PFloat _ => false
  end.

(** The maps whose value under [tags], if present, can be iterated over. *)
Definition tags_iterable (d : list (string * pyval)) : bool :=
  match dict_lookup d "tags" with
  | Some v => iterable v
  | None => true
  end.

(** The faults of the steps inside the [try] block of [Storage.save]: opening
    and writing the temporary file, flushing, syncing and closing it, and the
    rename. *)
Definition fault_in_try (flt : write_fault) : bool :=
  match flt with
  | OpenFails _ | DumpFails _ _ | FlushFails _ _ | FsyncFails _ | CloseFails _
  | ReplaceFails _ => true
  | WriteOk | MakedirsFails _ => false
  end.

(** What is assumed of [json.loads] and [json.dumps]: a text written for a
    plain value reads back as that value. *)
Definition codec_roundtrip (L : Lib) : Prop :=
  ∀ v, plain v = true → json_loads (json_dumps v) = inr v.

(** The tasks whose tags are plain values; tags that are strings are. *)
Definition storable (t : Task) : bool := forallb plain (tags t).

(** The number of nodes of a value: the fuel that reading it back takes. *)
Fixpoint size (v : pyval) : nat :=
  match v with
  | PList l => S (fold_right (fun x n => size x + n) 0 l)
  | PDict d => S (fold_right (fun kv n => size (snd kv) + n) 0 d)
  | _ => 1
  end.

(** ** Sample data *)

Definition sample_env : env :=
  mkEnv "2026-11-03T10:00:00+00:00" "3f2a9c0e5b7d4d1e8a6f0c1b2d3e4f50" ReadOk WriteOk
        0 (fun _ _ => None).

Definition unreadable_env : env :=
  mkEnv "2026-11-03T10:00:00+00:00" "3f2a9c0e5b7d4d1e8a6f0c1b2d3e4f50"
        (ReadFails "[Errno 13] Permission denied: '/data/tasks.json'") WriteOk
        0 (fun _ _ => None).

Definition disk_full_env : env :=
  mkEnv "2026-11-03T10:00:00+00:00" "3f2a9c0e5b7d4d1e8a6f0c1b2d3e4f50" ReadOk
        (DumpFails 10 "[Errno 28] No space left on device") 0 (fun _ _ => None).

Definition sample_storage : Storage := mkStorage "/data/tasks.json".

(** A directory [/data] without any file. *)
Definition empty_fs : filesystem := mkFs ∅ {[ "/data" ]}.

(** The same directory with a tasks file of the given text. *)
Definition fs_with (text : string) : filesystem :=
  mkFs {[ "/data/tasks.json" := Text text ]} {[ "/data" ]}.

(** The texts of four JSON documents: a null under [tasks], no [tasks] key,
    an empty list of tasks, and a record with a number under [tags]. *)
Definition null_tasks_text : string :=
  RefJson.dumps (PDict [("tasks", PNone)]).

Definition no_tasks_text : string :=
  RefJson.dumps (PDict [("version", PStr "1.0")]).

Definition empty_tasks_text : string :=
  RefJson.dumps (PDict [("tasks", PList [])]).

Definition bad_record_text : string :=
  RefJson.dumps (PDict [("tasks", PList [PDict [("id", PStr "a1")];
                                         PDict [("tags", PInt 5)]])]).

Definition task_a : Task :=
  mkTask "a1" "Test task" "2026-11-03T09:00:00+00:00" false [PStr "unit"].

Definition task_b : Task :=
  mkTask "b2" "Water the plants" "2026-11-03T09:30:00+00:00" true [PStr "home"; PStr "urgent"].

(** The keys of a task record. *)
Definition task_keys : list string :=
  ["id"; "description"; "created"; "completed"; "tags"].

(** A directory whose tasks file holds [task_a]. *)
Definition one_task_fs : filesystem :=
  fs_with (RefJson.dumps (save_data "2026-11-03T09:00:00+00:00" [task_a])).

(** The text of a document with a number under [tasks]. *)
Definition number_tasks_text : string :=
  RefJson.dumps (PDict [("tasks", PInt 5)]).

(** A tag as the add command stores it: not empty, no white space at either
    end, no comma. *)
Definition clean_tag (t : string) : bool :=
  negb (String.eqb t "") && negb (starts_with_space t) && negb (ends_with_space t)
  && negb (contains_char ","%char t).

(** Texts for the runs on the sample data. *)
Definition sample_texts : Texts :=
  {| builtin_message := fun e =>
       match e with
       | TypeError => "object is not iterable"
       | AttributeError => "object has no attribute"
       | UnicodeEncodeError => "'ascii' codec can't encode character"
       | _ => "invalid start byte"
       end;
     dry_run_banner := "Dry run: task would be:";
     done_mark := "x" |}.

(** A console that takes ASCII only: [print] refuses a line with any other
    character. *)
Definition ascii_console_env : env :=
  mkEnv "2026-11-03T10:00:00+00:00" "3f2a9c0e5b7d4d1e8a6f0c1b2d3e4f50" ReadOk WriteOk 0
        (fun _ line =>
           if forallb (fun c => nat_of_ascii c <? 128) (list_ascii_of_string line)
           then None else Some UnicodeEncodeError).

(** A task whose description has a letter that is not ASCII, and a directory
    whose tasks file holds that task. *)
Definition cafe_task : Task :=
  mkTask "d4" ("Caf" +:+ String "233"%char "") "2026-11-03T09:55:00+00:00" false [].

Definition cafe_fs : filesystem :=
  fs_with (RefJson.dumps (save_data "2026-11-03T09:58:00+00:00" [cafe_task])).

(** A storage two directories below [/data]. *)
Definition deep_storage : Storage := mkStorage "/data/sub/deep/tasks.json".

(** The disk takes one more directory and then no other. *)
Definition one_more_dir_env : env :=
  mkEnv "2026-11-03T10:00:00+00:00" "3f2a9c0e5b7d4d1e8a6f0c1b2d3e4f50" ReadOk
        (MakedirsFails "[Errno 28] No space left on device: '/data/sub/deep'") 1
        (fun _ _ => None).

Definition sample_ctx : Ctx := mkCtx "/data/tasks.json" false sample_storage.

(** The values that are strs. *)
Definition is_str (v : pyval) : bool :=
  match v with
  | PStr _ => true
  | _ => false
  end.

(** A task read from a file whose record has a number among its tags, and a
    directory whose tasks file holds [task_a] and that task. *)
Definition odd_tag_task : Task :=
  mkTask "c3" "Call home" "2026-11-03T09:45:00+00:00" false [PStr "home"; PInt 7].

Definition odd_tag_fs : filesystem :=
  fs_with (RefJson.dumps (save_data "2026-11-03T09:50:00+00:00" [task_a; odd_tag_task])).

(** What [main] hands to the command it runs. *)
Definition main_ctx (args : Namespace) : Ctx :=
  mkCtx (ns_data_file args) (flag (ns_debug args)) (mkStorage (ns_data_file args)).

(** The command that [main] dispatches to. *)
Definition dispatch {L : Lib} {T : Texts} (e : env) (args : Namespace) : prog Z :=
  match ns_command args with
  | CmdAdd a => add_cmd.run e a (main_ctx args)
  | CmdList a => list_cmd.run e a (main_ctx args)
  | CmdSearch a => search_cmd.run e a (main_ctx args)
  end.

(** * Properties *)

(** ** [str.strip] *)

Lemma append_cons (c : ascii) (l r : string) : String c l +:+ r = String c (l +:+ r).
Proof. reflexivity. Qed.

Lemma append_nil (r : string) : "" +:+ r = r.
Proof. reflexivity. Qed.

Lemma lstrip_split (s : string) :
  ∃ l, s = l +:+ lstrip s ∧ all_space l = true.
Proof.
  induction s as [|c s [l [Hs Hl]]]; simpl.
  - by exists "".
  - destruct (isspace c) eqn:Hc.
    + exists (String c l). rewrite append_cons, <- Hs. simpl. by rewrite Hc.
    + by exists "".
Qed.

Lemma lstrip_starts (s : string) : starts_with_space (lstrip s) = false.
Proof.
  induction s as [|c s IH]; simpl; [done|].
  destruct (isspace c) eqn:Hc; [done|]. simpl. by rewrite Hc.
Qed.

Lemma lstrip_empty (s : string) : lstrip s = "" ↔ all_space s = true.
Proof.
  induction s as [|c s IH]; simpl; [done|].
  destruct (isspace c); simpl; [done|]. split; discriminate.
Qed.

Lemma rstrip_empty (s : string) : rstrip s = "" ↔ all_space s = true.
Proof.
  induction s as [|c s IH]; simpl; [done|].
  destruct (rstrip s) eqn:Hr.
  - destruct (isspace c); simpl.
    + split; [intros _; by apply IH | done].
    + split; discriminate.
  - split; [discriminate|]. intros H. apply andb_true_iff in H as [_ H].
    apply IH in H. discriminate.
Qed.

Lemma rstrip_split (s : string) :
  ∃ r, s = rstrip s +:+ r ∧ all_space r = true.
Proof.
  induction s as [|c s [r [Hs Hr]]]; simpl.
  - by exists "".
  - destruct (rstrip s) eqn:Hrs.
    + destruct (isspace c) eqn:Hc.
      * exists (String c s). simpl. rewrite Hc. split; [done|].
        simpl. by apply rstrip_empty.
      * exists r. rewrite append_cons, append_nil. split; [|done].
        by rewrite Hs at 1.
    + exists r. rewrite append_cons. split; [|done]. by rewrite Hs at 1.
Qed.

Lemma rstrip_ends (s : string) : ends_with_space (rstrip s) = false.
Proof.
  induction s as [|c s IH]; simpl; [done|].
  destruct (rstrip s) eqn:Hrs.
  - destruct (isspace c) eqn:Hc; simpl; [done|]. by rewrite Hc.
  - simpl in *. done.
Qed.

Lemma rstrip_starts (s : string) :
  starts_with_space s = false → starts_with_space (rstrip s) = false.
Proof.
  destruct s as [|c s]; simpl; [done|]. intros Hc.
  destruct (rstrip s); [by rewrite Hc | done].
Qed.

Lemma all_space_app (l r : string) :
  all_space (l +:+ r) = all_space l && all_space r.
Proof.
  induction l as [|c l IH]; [done|].
  rewrite append_cons. simpl. by rewrite IH, andb_assoc.
Qed.

Lemma strip_empty (s : string) : strip s = "" ↔ all_space s = true.
Proof.
  unfold strip. rewrite rstrip_empty.
  destruct (lstrip_split s) as [l [Hs Hl]].
  rewrite Hs at 2. rewrite all_space_app, Hl. done.
Qed.

Lemma strip_split (s : string) :
  ∃ l r, s = l +:+ strip s +:+ r ∧ all_space l = true ∧ all_space r = true.
Proof.
  destruct (lstrip_split s) as [l [Hs Hl]].
  destruct (rstrip_split (lstrip s)) as [r [Hs' Hr]].
  exists l, r. unfold strip. by rewrite <- Hs'.
Qed.

Lemma strip_ends (s : string) :
  starts_with_space (strip s) = false ∧ ends_with_space (strip s) = false.
Proof.
  split; [apply rstrip_starts, lstrip_starts | apply rstrip_ends].
Qed.

Lemma eqb_empty (s : string) : String.eqb s "" = true ↔ s = "".
Proof. apply String.eqb_eq. Qed.

(** ** models.py *)

(** C4.  [Task.create] raises its ValueError (the validation error) exactly
    when the description is empty or consists of whitespace only; otherwise
    it returns a task whose description is the argument without its leading
    and trailing whitespace. *)
Theorem create_validation (uuid now_ d : string) (tags_ : option (list pyval))
    (id_ created_ : option string) :
  match create uuid now_ d tags_ id_ created_ with
  | Raise e => e = ValueError "description must be non-empty" ∧ all_space d = true
  | Ok t =>
      all_space d = false ∧ description t = strip d ∧
      ∃ l r, d = l +:+ description t +:+ r ∧
             all_space l = true ∧ all_space r = true ∧
             starts_with_space (description t) = false ∧
             ends_with_space (description t) = false
  end.
Proof.
  unfold create.
  destruct (String.eqb d "" || String.eqb (strip d) "") eqn:Hd.
  - split; [done|]. apply orb_true_iff in Hd as [Hd|Hd].
    + apply eqb_empty in Hd. by subst.
    + by apply strip_empty, eqb_empty.
  - apply orb_false_iff in Hd as [_ Hd]. simpl.
    split; [|split; [done|]].
    + destruct (all_space d) eqn:Ha; [|done].
      apply strip_empty, eqb_empty in Ha. congruence.
    + destruct (strip_split d) as [l [r [Hs [Hl Hr]]]].
      destruct (strip_ends d) as [H1 H2]. by exists l, r.
Qed.

Example create_empty :
  create "u" "n" "" None None None = Raise (ValueError "description must be non-empty").
Proof. reflexivity. Qed.

Example create_blank :
  create "u" "n" "   " None None None = Raise (ValueError "description must be non-empty").
Proof. reflexivity. Qed.

Example create_hi :
  create "u" "n" " hi " None None None = Ok (mkTask "u" "hi" "n" false []).
Proof. reflexivity. Qed.


Lemma py_iter_iterable (v : pyval) :
  iterable v = true → ∃ items, py_iter v = Ok items.
Proof. destruct v; simpl; try discriminate; eauto. Qed.

(** Induction on values, with the hypothesis for every item of a list
    and every value of a dict. *)
Lemma pyval_ind_items (P : pyval → Prop)
    (HNone : P PNone) (HBool : ∀ b, P (PBool b)) (HInt : ∀ n, P (PInt n))
    (HFloat : ∀ r, P (PFloat r)) (HStr : ∀ s, P (PStr s))
    (HList : ∀ l, Forall P l → P (PList l))
    (HDict : ∀ d, Forall (λ kv, P (snd kv)) d → P (PDict d)) :
  ∀ v, P v.
Proof.
  fix IH 1. intros [|b|n|r|s|l|d].
  - exact HNone.
  - exact (HBool b).
  - exact (HInt n).
  - exact (HFloat r).
  - exact (HStr s).
  - apply HList. induction l as [|x l IHl]; constructor; [exact (IH x) | exact IHl].
  - apply HDict. induction d as [|[k x] d IHd]; constructor; [exact (IH x) | exact IHd].
Qed.

Lemma mapM_writable {A : Type} (f : A → result string) (p : A → bool) (l : list A) :
  Forall (λ x, if p x then ∃ s, f x = Ok s else ∃ msg, f x = Raise (ValueError msg)) l →
  if forallb p l then ∃ ss, mapM f l = Ok ss
  else ∃ msg, mapM f l = Raise (ValueError msg).
Proof.
  induction 1 as [|x l Hx _ IHl]; cbn [forallb mapM]; [by eexists|].
  destruct (p x); cbn [andb].
  - destruct Hx as [sx ->]. cbn.
    destruct (forallb p l); destruct IHl as [z Hz];
      destruct (mapM f l) as [ss|ex]; try discriminate Hz; cbn; [by eexists|].
    injection Hz as ->. by eexists.
  - destruct Hx as [msg ->]. by exists msg.
Qed.

Lemma py_repr_cases (v : pyval) :
  if writable v then ∃ s, py_repr v = Ok s else ∃ msg, py_repr v = Raise (ValueError msg).
Proof.
  induction v as [|b|n|r|s|l IH|d IH] using pyval_ind_items; cbn [writable py_repr];
    try (by eexists).
  - by destruct b; eexists.
  - unfold int_repr. rewrite Nat.ltb_antisym. destruct (digits n <=? _); cbn; by eexists.
  - apply (mapM_writable py_repr writable) in IH.
    destruct (forallb writable l).
    + destruct IH as [ss ->]. by eexists.
    + destruct IH as [msg ->]. by exists msg.
  - pose proof (mapM_writable
      (λ kv, r ← py_repr kv.2; Ok (repr_str kv.1 +:+ ": " +:+ r)) (λ kv, writable kv.2) d)
      as Hm.
    destruct (forallb (λ kv, writable kv.2) d).
    + destruct Hm as [ss ->]; [|by eexists].
      eapply Forall_impl; [exact IH|]. intros [k x]. cbn [fst snd].
      destruct (writable x); intros [t ->]; by eexists.
    + destruct Hm as [msg ->]; [|by exists msg].
      eapply Forall_impl; [exact IH|]. intros [k x]. cbn [fst snd].
      destruct (writable x); intros [t ->]; by eexists.
Qed.

Lemma py_str_cases (v : pyval) :
  if writable v then ∃ s, py_str v = Ok s else ∃ msg, py_str v = Raise (ValueError msg).
Proof.
  destruct v; try apply py_repr_cases. cbn. by eexists.
Qed.

Lemma py_str_scalar (v : pyval) :
  scalar v = true →
  if str_writes v then ∃ s, py_str v = Ok s else ∃ msg, py_str v = Raise (ValueError msg).
Proof.
  destruct v as [|b|n|r|s|l|d]; try discriminate; intros _; cbn; try (by eexists).
  - by destruct b; eexists.
  - unfold int_repr. rewrite Nat.ltb_antisym. destruct (digits n <=? _); cbn; by eexists.
Qed.

Lemma str_writes_scalar (v : pyval) : str_writes v = true → scalar v = true.
Proof. by destruct v. Qed.

(** C5, as the code has it.  [Task.from_dict] returns a task on a map whose
    [tags] value is missing or is a list, a str or a dict, and whose [id],
    [description] and [created] values are [None], bools, floats, strs or
    ints of no more digits than [str] writes: a missing [id] or
    [description] becomes the empty string, a missing [created] the current
    time, a missing [completed] false and missing [tags] the empty list; a
    value that is present goes through [str], [bool] or [list].  It raises
    ValueError when one of the three values is an int of more digits (the
    three being scalars), and TypeError when the three are written and
    [list] refuses the tags. *)
Theorem from_dict_tolerant (now_ : string) (d : list (string * pyval)) :
  (texts_plain d = true → tags_iterable d = true →
   ∃ t, from_dict now_ (PDict d) = Ok t ∧
        match dict_lookup d "id" with
        | Some v => py_str v = Ok (id t)
        | None => id t = ""
        end ∧
        match dict_lookup d "description" with
        | Some v => py_str v = Ok (description t)
        | None => description t = ""
        end ∧
        match dict_lookup d "created" with
        | Some v => py_str v = Ok (created t)
        | None => created t = now_
        end ∧
        completed t =
          match dict_lookup d "completed" with Some v => py_bool v | None => false end ∧
        match dict_lookup d "tags" with
        | Some v => py_list v = Ok (tags t)
        | None => tags t = []
        end)
  ∧ (texts_scalar d = true → texts_plain d = false →
     ∃ msg, from_dict now_ (PDict d) = Raise (ValueError msg))
  ∧ (texts_plain d = true → tags_iterable d = false →
     from_dict now_ (PDict d) = Raise TypeError).
Proof.
  unfold texts_plain, texts_scalar, tags_iterable, from_dict, dict_get. cbn [forallb].
  pose proof py_str_scalar as Hstr. pose proof str_writes_scalar as Hsc.
  destruct (dict_lookup d "id") as [vi|] eqn:Hi;
    [pose proof (Hstr vi) as Hvi; pose proof (Hsc vi) as Hsi;
     destruct (scalar vi);
     [specialize (Hvi eq_refl); destruct (str_writes vi);
      [destruct Hvi as [si ->]|destruct Hvi as [mi ->]]
     |destruct (str_writes vi); [by discriminate Hsi|]]|];
    cbn [andb mbind result_bind py_str];
    try (split_and!; [done| |done]; intros _ _; by eexists);
    try (split_and!; done).
  all: destruct (dict_lookup d "description") as [vd|] eqn:Hd;
    [pose proof (Hstr vd) as Hvd; pose proof (Hsc vd) as Hsd;
     destruct (scalar vd);
     [specialize (Hvd eq_refl); destruct (str_writes vd);
      [destruct Hvd as [sd ->]|destruct Hvd as [md ->]]
     |destruct (str_writes vd); [by discriminate Hsd|]]|];
    cbn [andb mbind result_bind py_str];
    try (split_and!; [done| |done]; intros _ _; by eexists);
    try (split_and!; done).
  all: destruct (dict_lookup d "created") as [vc|] eqn:Hc;
    [pose proof (Hstr vc) as Hvc; pose proof (Hsc vc) as Hsc';
     destruct (scalar vc);
     [specialize (Hvc eq_refl); destruct (str_writes vc);
      [destruct Hvc as [sc ->]|destruct Hvc as [mc ->]]
     |destruct (str_writes vc); [by discriminate Hsc'|]]|];
    cbn [andb mbind result_bind py_str];
    try (split_and!; [done| |done]; intros _ _; by eexists);
    try (split_and!; done).
  all: destruct (dict_lookup d "tags") as [vt|] eqn:Ht;
    [destruct vt; cbn|cbn];
    split_and!; try done; intros _ _; eexists; (split; [reflexivity|]);
    cbn; split_and!; try done; by case_match.
Qed.

(** A record with a number as id, a string as completed flag and a string
    as tags. *)
Lemma from_dict_tolerant_witness :
  ∃ t, from_dict "2026-11-03T10:00:00+00:00"
         (PDict [("id", PInt 7); ("completed", PStr "yes"); ("tags", PStr "ab")]) = Ok t ∧
       id t = "7" ∧ description t = "" ∧ created t = "2026-11-03T10:00:00+00:00" ∧
       completed t = true ∧ tags t = [PStr "a"; PStr "b"].
Proof.
  destruct (from_dict_tolerant "2026-11-03T10:00:00+00:00"
              [("id", PInt 7); ("completed", PStr "yes"); ("tags", PStr "ab")])
    as [Hok _].
  destruct (Hok eq_refl eq_refl) as [t [Ht [H1 [H2 [H3 [H4 H5]]]]]].
  exists t. cbn in H1, H2, H3, H4, H5. injection H1 as H1. injection H5 as H5.
  repeat split; [exact Ht | by symmetry | exact H2 | exact H3 | exact H4 | by symmetry].
Defined.

(** C5, as the spec states it, fails: a number under [tags] is rejected,
    [list(5)] raises TypeError. *)
Lemma from_dict_number_tags_raises :
  from_dict "2026-11-03T10:00:00+00:00" (PDict [("id", PStr "a"); ("tags", PInt 5)])
  = Raise TypeError.
Proof. reflexivity. Qed.

(** Nor is [str] total: an id of 4301 digits is refused, with or without
    tags. *)
Example from_dict_long_id_no_tags :
  from_dict "2026-11-03T10:00:00+00:00" (PDict [("id", PInt (10 ^ 4300))])
  = Raise (ValueError ("Exceeds the limit (4300 digits) for integer string conversion; "
                       +:+ "use sys.set_int_max_str_digits() to increase the limit")).
Proof. vm_compute. reflexivity. Qed.

Example from_dict_empty (now_ : string) :
  from_dict now_ (PDict []) = Ok (mkTask "" "" now_ false []).
Proof. reflexivity. Qed.

Lemma substring_0_0 (s : string) : substring 0 0 s = "".
Proof. by destruct s. Qed.

Lemma chars_lookup (s : string) (i : nat) :
  i < String.length s →
  map (fun c => PStr (String c "")) (list_ascii_of_string s) !! i
  = Some (PStr (substring i 1 s)).
Proof.
  revert i. induction s as [|c s IH]; intros i Hi; simpl in *; [lia|].
  destruct i as [|i]; simpl.
  - by rewrite substring_0_0.
  - apply IH. lia.
Qed.

Lemma chars_length (s : string) :
  length (list_ascii_of_string s) = String.length s.
Proof. induction s; simpl; congruence. Qed.

Lemma from_dict_texts (now_ : string) (d : list (string * pyval)) :
  texts_plain d = true →
  ∃ i de c,
    py_str (dict_get d "id" (PStr "")) = Ok i
    ∧ py_str (dict_get d "description" (PStr "")) = Ok de
    ∧ py_str (dict_get d "created" (PStr now_)) = Ok c
    ∧ from_dict now_ (PDict d)
      = (tags_ ← py_list (dict_get d "tags" (PList []));
         Ok (mkTask i de c (py_bool (dict_get d "completed" (PBool false))) tags_)).
Proof.
  unfold texts_plain, from_dict, dict_get. cbn [forallb].
  rewrite !andb_true_iff. intros (Hi & Hd & Hc & _).
  assert (Hstr : ∀ o dflt, match o with Some v => str_writes v | None => true end = true →
            ∃ x, py_str (match o with Some v => v | None => PStr dflt end) = Ok x).
  { intros [v|] dflt Hv; [|by eexists].
    pose proof (py_str_scalar v (str_writes_scalar v Hv)) as Hs. by rewrite Hv in Hs. }
  destruct (Hstr _ "" Hi) as [i ->]. destruct (Hstr _ "" Hd) as [de ->].
  destruct (Hstr _ now_ Hc) as [c ->]. by exists i, de, c.
Qed.

(** C10, as the code has it.  When the value under [tags] is a str and the
    values under [id], [description] and [created] are such that [str]
    writes them ([None], bools, floats, strs, ints of no more digits than the
    limit), [Task.from_dict] returns a task whose tags are the one-character
    substrings of that str, in order; unless the str has exactly one
    character this is not the list holding the str itself. *)
Theorem from_dict_string_tags (now_ : string) (d : list (string * pyval)) (s : string) :
  dict_lookup d "tags" = Some (PStr s) →
  texts_plain d = true →
  ∃ t, from_dict now_ (PDict d) = Ok t ∧
       length (tags t) = String.length s ∧
       (∀ i, i < String.length s → tags t !! i = Some (PStr (substring i 1 s))) ∧
       (String.length s ≠ 1 → tags t ≠ [PStr s]).
Proof.
  intros Hs Hw. destruct (from_dict_texts now_ d Hw) as (i & de & c & _ & _ & _ & ->).
  unfold dict_get. rewrite Hs. simpl.
  eexists. split; [reflexivity|]. simpl. split; [|split].
  - by rewrite length_map, chars_length.
  - intros j Hj. by apply chars_lookup.
  - intros Hlen Heq. apply (f_equal length) in Heq.
    rewrite length_map, chars_length in Heq. simpl in Heq. done.
Qed.

(** The tags [abc]. *)
Lemma from_dict_string_tags_witness :
  ∃ t, from_dict "2026-11-03T10:00:00+00:00" (PDict [("tags", PStr "abc")]) = Ok t ∧
       tags t = [PStr "a"; PStr "b"; PStr "c"] ∧ tags t ≠ [PStr "abc"].
Proof.
  destruct (from_dict_string_tags "2026-11-03T10:00:00+00:00"
              [("tags", PStr "abc")] "abc" eq_refl eq_refl) as [t [Ht [_ [_ Hne]]]].
  exists t. split; [exact Ht|]. split.
  - simpl in Ht. injection Ht as <-. reflexivity.
  - apply Hne. simpl. lia.
Defined.

(** C10, as the spec states it, fails: with a str under [tags],
    [Task.from_dict] still raises when the id is an int of 4301 digits, which
    [str] refuses to write. *)
Lemma from_dict_long_id_raises :
  from_dict "2026-11-03T10:00:00+00:00"
    (PDict [("id", PInt (10 ^ 4300)); ("tags", PStr "ab")])
  = Raise (ValueError ("Exceeds the limit (4300 digits) for integer string conversion; "
                       +:+ "use sys.set_int_max_str_digits() to increase the limit")).
Proof. vm_compute. reflexivity. Qed.


(** ** storage.py *)

Lemma length_append (a b : string) :
  String.length (a +:+ b) = String.length a + String.length b.
Proof.
  induction a as [|c a IH]; [done|]. rewrite append_cons. simpl. by rewrite IH.
Qed.

(** The temporary path is never the real path. *)
Lemma tmp_path_ne (p : string) : p +:+ ".tmp" ≠ p.
Proof.
  intros H. apply (f_equal String.length) in H.
  rewrite length_append in H. simpl in H. lia.
Qed.

Lemma create_meta (u n : string) :
  create u n "_meta_" None None None = Ok (mkTask u "_meta_" n false []).
Proof. reflexivity. Qed.

Lemma io_bind_unfold {A B : Type} (m : io A) (k : A → io B) (fs : filesystem) :
  (m ≫= k) fs
  = match m fs with
    | (fs', Ok a) => k a fs'
    | (fs', Raise e) => (fs', Raise e)
    end.
Proof. reflexivity. Qed.

Ltac io_step := rewrite ?io_bind_unfold; cbv beta iota; unfold set_file; cbn [files dirs fst snd].

Ltac raised :=
  left; eexists; split; [reflexivity|]; rewrite ?lookup_insert_ne by done; done.

(** The [try] block of [Storage.save]: it raises an OSError and leaves
    every other path alone, or it returns and the real path holds the text. *)
Lemma write_steps_spec (flt : write_fault) (tmp p text : string) (fs : filesystem) :
  tmp ≠ p →
  let run :=
    (_ ← open_w flt tmp;
     _ ← file_dump flt tmp text;
     _ ← file_flush flt;
     _ ← os_fsync flt;
     _ ← file_close flt;
     os_replace flt tmp p) fs in
  (∃ msg, run.2 = Raise (OSError msg) ∧ files run.1 !! p = files fs !! p)
  ∨ (run.2 = Ok tt ∧ files run.1 !! p = Some (Text text) ∧
     (flt = WriteOk ∨ ∃ msg, flt = MakedirsFails msg)).
Proof.
  intros Hne run. subst run.
  unfold open_w, file_dump, file_flush, os_fsync, file_close, os_replace.
  destruct flt as [|m|m|n m|n m|m|m|m]; io_step; try raised.
  all: destruct (bool_decide (tmp ∈ dirs fs)) eqn:Htmp; io_step; try raised.
  all: rewrite lookup_insert_eq.
  all: destruct (bool_decide (p ∈ dirs fs)) eqn:Hp; io_step; try raised.
  all: right; rewrite lookup_insert_eq; eauto.
Qed.

Section save_facts.
Context {L : Lib}.

Lemma path_exists_false (fs : filesystem) (p : string) :
  path_exists fs p = false → files fs !! p = None ∧ p ∉ dirs fs.
Proof.
  unfold path_exists. rewrite orb_false_iff, !bool_decide_eq_false.
  intros [Hf Hd]. split; [|done]. destruct (files fs !! p) eqn:E; [|done].
  exfalso. apply Hf. by eexists.
Qed.

Lemma ensure_parent_cases (e : env) (self : Storage) (fs : filesystem) :
  (∃ msg fs1, wfault e = MakedirsFails msg
              ∧ _ensure_parent e self fs = (fs1, Raise (OSError msg))
              ∧ files fs1 = files fs)
  ∨ (∃ fs1, _ensure_parent e self fs = (fs1, Ok tt) ∧ files fs1 = files fs).
Proof.
  unfold _ensure_parent, os_makedirs.
  destruct (negb (String.eqb _ "")); cbn [andb]; [|right; eauto].
  destruct (path_exists fs _) eqn:Hex; cbn [negb]; [right; eauto|].
  apply path_exists_false in Hex as [Hnone _]. rewrite Hnone.
  rewrite bool_decide_eq_false_2 by (by intros [? ?]).
  destruct (wfault e); try (right; eexists; split; [reflexivity|done]).
  left. by eexists _, _.
Qed.

(** The three ways a call of [save] can end. *)
Lemma save_cases (e : env) (self : Storage) (ts : list Task) (fs : filesystem) :
  let run := save e self ts fs in
  (∃ msg, wfault e = MakedirsFails msg ∧ run.2 = Raise (OSError msg)
          ∧ files run.1 = files fs)
  ∨ (∃ msg, run.2 = Raise (StorageError ("could not write " +:+ path self +:+ ": " +:+ msg))
            ∧ files run.1 !! path self = files fs !! path self)
  ∨ (run.2 = Ok tt
     ∧ files run.1 !! path self = Some (Text (json_dumps (save_data (now e) ts)))
     ∧ (wfault e = WriteOk ∨ ∃ msg, wfault e = MakedirsFails msg)).
Proof.
  intros run. subst run. unfold save. rewrite io_bind_unfold.
  destruct (ensure_parent_cases e self fs) as [(msg & fs1 & Hflt & -> & Hf)|[fs1 [-> Hf]]].
  { left. eauto. }
  right. rewrite io_bind_unfold. unfold io_lift. rewrite create_meta.
  cbv beta iota. cbn [created]. unfold except_OSError.
  pose proof (write_steps_spec (wfault e) (path self +:+ ".tmp") (path self)
                (json_dumps (save_data (now e) ts)) fs1 (tmp_path_ne _)) as Hrun.
  cbv zeta in Hrun. rewrite Hf in Hrun.
  destruct Hrun as [[msg [Hr Hfiles]]|[Hr [Hfiles Hflt]]].
  - left. exists msg.
    destruct ((_ ← open_w _ _; _) fs1) as [fs2 r]. simpl in Hr, Hfiles. subst r.
    by unfold io_raise.
  - right. destruct ((_ ← open_w _ _; _) fs1) as [fs2 r]. simpl in Hr, Hfiles. by subst r.
Qed.
End save_facts.



Section storage_facts.
Context {L : Lib}.

(** C2.  When a step of the [try] block fails (opening, writing, flushing,
    syncing or closing the temporary file, or the rename), [Storage.save]
    raises StorageError and the real path holds what it held before, or is
    as absent as before.  However a call ends, the real path is as before or
    holds the whole serialized text, never a part of it; after a raise it is
    as before. *)
Theorem save_failure_atomic (e : env) (self : Storage) (ts : list Task) (fs : filesystem) :
  let run := save e self ts fs in
  (fault_in_try (wfault e) = true →
   ∃ msg, run.2 = Raise (StorageError ("could not write " +:+ path self +:+ ": " +:+ msg))
          ∧ files run.1 !! path self = files fs !! path self)
  ∧ (∀ ex, run.2 = Raise ex → files run.1 !! path self = files fs !! path self)
  ∧ (files run.1 !! path self = files fs !! path self
     ∨ (run.2 = Ok tt
        ∧ files run.1 !! path self = Some (Text (json_dumps (save_data (now e) ts))))).
Proof.
  intros run. subst run.
  pose proof (save_cases e self ts fs) as Hc. cbv zeta in Hc.
  destruct Hc as [(msg & Hflt & Hrun & Hsame)|[[msg [Hr Hfiles]]|[Hr [Hfiles Hflt]]]].
  - rewrite Hsame, Hflt. simpl. split; [done|]. split; [done|]. by left.
  - split; [eauto|]. split; [done|]. by left.
  - split; [|split].
    + intros Hf. destruct Hflt as [Hflt|[msg Hflt]]; rewrite Hflt in Hf; done.
    + intros ex Hex. congruence.
    + right. done.
Qed.

(** C6.  On a path that does not exist [Storage.load] returns the empty
    list, whatever the environment does. *)
Theorem load_missing_path (e : env) (fs : filesystem) (self : Storage) :
  path_exists fs (path self) = false → load e fs self = Ok [].
Proof. intros H. unfold load. by rewrite H. Qed.

Lemma path_exists_file (fs : filesystem) (p : string) (c : content) :
  files fs !! p = Some c → path_exists fs p = true.
Proof.
  intros H. unfold path_exists. apply orb_true_iff. left.
  apply bool_decide_eq_true. by exists c.
Qed.

(** [Storage.load] on a readable file whose text parses. *)
Lemma load_parsed (e : env) (fs : filesystem) (self : Storage) (s : string) (data : pyval) :
  rfault e = ReadOk →
  files fs !! path self = Some (Text s) →
  json_loads s = inr data →
  load e fs self =
    let tasks_data := match data with PDict d => dict_get_opt d "tasks" | _ => PNone end in
    match tasks_data with
    | PNone => Raise (StorageError ("unexpected file format in " +:+ path self))
    | _ => items ← py_iter tasks_data; mapM (from_dict (now e)) items
    end.
Proof.
  intros Hr Hf Hs. unfold load, json_load, read_text.
  rewrite (path_exists_file _ _ _ Hf), Hr, Hf, Hs. done.
Qed.

(** C9.  A file that parses to a dict whose [tasks] value is null makes
    [Storage.load] raise the same StorageError as a dict without the key
    [tasks]. *)
Theorem load_null_tasks (e : env) (fs : filesystem) (self : Storage)
    (s : string) (d : list (string * pyval)) :
  rfault e = ReadOk →
  files fs !! path self = Some (Text s) →
  json_loads s = inr (PDict d) →
  dict_lookup d "tasks" = Some PNone ∨ dict_lookup d "tasks" = None →
  load e fs self = Raise (StorageError ("unexpected file format in " +:+ path self)).
Proof.
  intros Hr Hf Hs Hd. rewrite (load_parsed e fs self s (PDict d)) by done.
  unfold dict_get_opt, dict_get. by destruct Hd as [-> | ->].
Qed.

(** C3, as the code has it.  When the path exists, [Storage.load] raises
    the one class StorageError in all three cases, which differ in the
    message only: the path cannot be read; the text is not valid JSON; the
    document is not a dict, or has no [tasks] key. *)
Theorem load_errors (e : env) (fs : filesystem) (self : Storage) :
  path_exists fs (path self) = true →
  (∀ exc, read_text (rfault e) fs (path self) = Raise (OSError exc) →
     load e fs self = Raise (StorageError ("could not read " +:+ path self +:+ ": " +:+ exc)))
  ∧ (∀ s exc, read_text (rfault e) fs (path self) = Ok s → json_loads s = inl exc →
       load e fs self = Raise (StorageError ("invalid JSON in " +:+ path self +:+ ": " +:+ exc)))
  ∧ (∀ s data, read_text (rfault e) fs (path self) = Ok s → json_loads s = inr data →
       match data with PDict d => dict_lookup d "tasks" = None | _ => True end →
       load e fs self = Raise (StorageError ("unexpected file format in " +:+ path self)))
  ∧ (∀ exc exc',
       "could not read " +:+ path self +:+ ": " +:+ exc
         ≠ "invalid JSON in " +:+ path self +:+ ": " +:+ exc'
       ∧ "could not read " +:+ path self +:+ ": " +:+ exc
         ≠ "unexpected file format in " +:+ path self
       ∧ "invalid JSON in " +:+ path self +:+ ": " +:+ exc'
         ≠ "unexpected file format in " +:+ path self).
Proof.
  intros Hex. unfold load, json_load. rewrite Hex. simpl.
  split; [|split; [|split]].
  - intros exc ->. done.
  - intros s exc -> ->. done.
  - intros s data -> -> Hd. destruct data; try done.
    unfold dict_get_opt, dict_get. by rewrite Hd.
  - intros exc exc'. repeat split; discriminate.
Qed.

(** ** Reading back what was saved *)

Lemma from_dict_to_dict (n : string) (t : Task) : from_dict n (to_dict t) = Ok t.
Proof. by destruct t. Qed.

Lemma mapM_from_dict (n : string) (ts : list Task) :
  mapM (from_dict n) (map to_dict ts) = Ok ts.
Proof.
  induction ts as [|t ts IH]; [done|].
  cbn [map mapM]. rewrite from_dict_to_dict. cbn. rewrite IH. done.
Qed.

Lemma plain_to_dict (t : Task) : storable t = true → plain (to_dict t) = true.
Proof.
  intros Ht. unfold storable in Ht. unfold to_dict.
  cbn [plain forallb snd map fst]. rewrite Ht. by vm_compute.
Qed.

Lemma plain_save_data (updated : string) (ts : list Task) :
  forallb storable ts = true → plain (save_data updated ts) = true.
Proof.
  intros Hts. unfold save_data. cbn [plain forallb snd map fst].
  replace (forallb plain (map to_dict ts)) with true; [by vm_compute|].
  symmetry. induction ts as [|t ts IH]; [done|].
  cbn [map forallb] in Hts |- *. apply andb_true_iff in Hts as [Ht Hts].
  rewrite plain_to_dict, IH; done.
Qed.

Lemma load_saved_text (e : env) (fs : filesystem) (self : Storage)
    (updated : string) (ts : list Task) :
  codec_roundtrip L →
  forallb storable ts = true →
  rfault e = ReadOk →
  files fs !! path self = Some (Text (json_dumps (save_data updated ts))) →
  load e fs self = Ok ts.
Proof.
  intros Hcodec Hts Hr Hf.
  rewrite (load_parsed e fs self (json_dumps (save_data updated ts))
             (save_data updated ts)); try done.
  - cbn. apply mapM_from_dict.
  - apply Hcodec. by apply plain_save_data.
Qed.

(** C1.  Given that the JSON codec reads back what it writes, a [load]
    after a [save] that returned yields the saved tasks, equal field by
    field and in the same order. *)
Theorem save_load_roundtrip (e e' : env) (self : Storage) (ts : list Task)
    (fs : filesystem) :
  codec_roundtrip L →
  forallb storable ts = true →
  (save e self ts fs).2 = Ok tt →
  rfault e' = ReadOk →
  load e' (save e self ts fs).1 self = Ok ts.
Proof.
  intros Hcodec Hts Hok Hr.
  pose proof (save_cases e self ts fs) as Hc. cbv zeta in Hc.
  destruct Hc as [(msg & _ & Hrun & _)|[[msg [Hraise _]]|[_ [Hfiles _]]]].
  - congruence.
  - congruence.
  - by apply (load_saved_text e' _ self (now e) ts).
Qed.

(** [save] returns when nothing fails and neither path is a directory once
    the parent directory is there. *)
Lemma save_returns (e : env) (self : Storage) (ts : list Task) (fs : filesystem) :
  wfault e = WriteOk →
  path self ∉ dirs (_ensure_parent e self fs).1 →
  (path self +:+ ".tmp") ∉ dirs (_ensure_parent e self fs).1 →
  (save e self ts fs).2 = Ok tt.
Proof.
  intros Hflt. unfold save. rewrite io_bind_unfold.
  destruct (ensure_parent_cases e self fs) as [(msg & fs1 & Hm & _)|[fs1 [-> _]]];
    [congruence|].
  cbn [fst]. intros Hp1 Htmp1.
  rewrite io_bind_unfold. unfold io_lift. rewrite create_meta.
  cbv beta iota.
  unfold except_OSError, open_w, file_dump, file_flush, os_fsync, file_close, os_replace.
  rewrite Hflt. io_step. rewrite (bool_decide_eq_false_2 _ Htmp1). io_step.
  rewrite lookup_insert_eq, (bool_decide_eq_false_2 _ Hp1). done.
Qed.

Lemma load_returns_read_ok (e : env) (fs : filesystem) (self : Storage) (ts : list Task) :
  path_exists fs (path self) = true → load e fs self = Ok ts → rfault e = ReadOk.
Proof.
  intros Hex. unfold load, json_load, read_text. rewrite Hex. simpl.
  destruct (rfault e); [done|discriminate].
Qed.

(** C7.  [Storage.add_task] is [load], then append, then [save]; given that
    the JSON codec reads back what it writes, two calls that return,
    starting from a path that does not exist, leave a file from which
    [load] returns the two tasks in the order they were added. *)
Theorem add_task_appends (e1 e2 e3 : env) (self : Storage) (a b : Task)
    (fs : filesystem) :
  codec_roundtrip L →
  (∀ e t fs0,
     add_task e self t fs0
     = match load e fs0 self with
       | Ok ts => save e self (ts ++ [t]) fs0
       | Raise ex => (fs0, Raise ex)
       end)
  ∧ (path_exists fs (path self) = false →
     storable a = true → storable b = true →
     (add_task e1 self a fs).2 = Ok tt →
     (add_task e2 self b (add_task e1 self a fs).1).2 = Ok tt →
     rfault e3 = ReadOk →
     load e3 (add_task e2 self b (add_task e1 self a fs).1).1 self = Ok [a; b]).
Proof.
  intros Hcodec.
  assert (Hadd : ∀ e t fs0,
     add_task e self t fs0
     = match load e fs0 self with
       | Ok ts => save e self (ts ++ [t]) fs0
       | Raise ex => (fs0, Raise ex)
       end).
  { intros e t fs0. unfold add_task. rewrite io_bind_unfold. by destruct (load e fs0 self). }
  split; [exact Hadd|].
  intros Hnew Ha Hb H1 H2 Hr3.
  assert (Hfirst : add_task e1 self a fs = save e1 self [a] fs).
  { rewrite Hadd. unfold load. by rewrite Hnew. }
  rewrite Hfirst in *.
  set (fs1 := (save e1 self [a] fs).1) in *.
  assert (Hfile : files fs1 !! path self
                  = Some (Text (json_dumps (save_data (now e1) [a])))).
  { pose proof (save_cases e1 self [a] fs) as Hc. cbv zeta in Hc.
    destruct Hc as [(msg & _ & Hrun & _)|[[msg [Hraise _]]|[_ [Hfiles _]]]].
    - congruence.
    - congruence.
    - done. }
  rewrite Hadd in H2 |- *.
  destruct (load e2 fs1 self) as [ts1|ex] eqn:Hload; [|discriminate].
  pose proof (load_returns_read_ok e2 fs1 self ts1 (path_exists_file _ _ _ Hfile) Hload) as Hr2.
  rewrite (load_saved_text e2 fs1 self (now e1) [a]) in Hload; try done.
  2: { cbn. by rewrite Ha. }
  injection Hload as <-. simpl app in *.
  pose proof (save_cases e2 self [a; b] fs1) as Hc. cbv zeta in Hc.
  destruct Hc as [(msg & _ & Hrun & _)|[[msg [Hraise _]]|[_ [Hfiles _]]]].
  - congruence.
  - congruence.
  - apply (load_saved_text e3 _ self (now e2) [a; b]); try done.
    cbn. by rewrite Ha, Hb.
Qed.

(** C8.  [Storage.get_task_by_id] returns the first task of [load], in
    file order, whose id is the argument, and None when no task has it; an
    error of [load] is passed on. *)
Theorem get_task_by_id_first_match (e : env) (fs : filesystem) (self : Storage)
    (id_ : string) :
  match load e fs self with
  | Raise ex => get_task_by_id e fs self id_ = Raise ex
  | Ok ts =>
      (∀ before t after,
         ts = before ++ t :: after → id t = id_ →
         Forall (λ u, id u ≠ id_) before →
         get_task_by_id e fs self id_ = Ok (Some t))
      ∧ (Forall (λ u, id u ≠ id_) ts → get_task_by_id e fs self id_ = Ok None)
      ∧ (∀ t, get_task_by_id e fs self id_ = Ok (Some t) →
           ∃ before after, ts = before ++ t :: after ∧ id t = id_
                           ∧ Forall (λ u, id u ≠ id_) before)
      ∧ (get_task_by_id e fs self id_ = Ok None → Forall (λ u, id u ≠ id_) ts)
  end.
Proof.
  unfold get_task_by_id. destruct (load e fs self) as [ts|ex]; [|done]. cbn.
  assert (Hscan : ∀ ts,
    match first_with_id ts id_ with
    | Some t => ∃ before after, ts = before ++ t :: after ∧ id t = id_
                                ∧ Forall (λ u, id u ≠ id_) before
    | None => Forall (λ u, id u ≠ id_) ts
    end).
  { clear ts. induction ts as [|t ts IH]; cbn; [done|].
    destruct (String.eqb (id t) id_) eqn:Ht.
    - apply String.eqb_eq in Ht. by exists [], ts.
    - apply String.eqb_neq in Ht. destruct (first_with_id ts id_) as [u|].
      + destruct IH as [before [after [-> [Hu Hb]]]].
        exists (t :: before), after. by repeat constructor.
      + by constructor. }
  assert (Hfirst : ∀ before t after,
    id t = id_ → Forall (λ u, id u ≠ id_) before →
    first_with_id (before ++ t :: after) id_ = Some t).
  { intros before t after Ht. induction 1 as [|u before Hu _ IH]; cbn.
    - apply String.eqb_eq in Ht. by rewrite Ht.
    - apply String.eqb_neq in Hu. by rewrite Hu. }
  assert (Hnone : ∀ ts, Forall (λ u, id u ≠ id_) ts → first_with_id ts id_ = None).
  { induction 1 as [|u l Hu _ IH]; cbn; [done|].
    apply String.eqb_neq in Hu. by rewrite Hu. }
  repeat split.
  - intros before t after -> Ht Hb. by rewrite Hfirst.
  - intros Hall. by rewrite Hnone.
  - intros t Ht. injection Ht as Ht. specialize (Hscan ts). by rewrite Ht in Hscan.
  - intros Ht. injection Ht as Ht. specialize (Hscan ts). by rewrite Ht in Hscan.
Qed.
End storage_facts.



(** ** The JSON writer and reader *)


Module RefJsonFacts.
Import RefJson.

Lemma chars_string (l : list ascii) : chars (string_of_list_ascii l) = l.
Proof. apply list_ascii_of_string_of_list_ascii. Qed.

Lemma string_chars (s : string) : string_of_list_ascii (chars s) = s.
Proof. apply string_of_list_ascii_of_string. Qed.

(** *** Strings *)

Lemma read_str_escape (c : ascii) (start rest : list ascii) :
  read_str start (escape_char c ++ rest) = cons_parsed c (read_str start rest).
Proof.
  destruct c as [[] [] [] [] [] [] [] []]; reflexivity.
Qed.

Lemma read_str_emit (cs start rest : list ascii) :
  read_str start (flat_map escape_char cs ++ dquote :: rest) = Parsed cs rest.
Proof.
  induction cs as [|c cs IH]; [done|].
  cbn [flat_map]. rewrite <- app_assoc, read_str_escape, IH. done.
Qed.

(** *** White space *)

Lemma skip_ws_value (s : list ascii) : starts_value s → skip_ws s = s.
Proof. destruct s as [|c s]; [done|]. intros [Hc _]. cbn. by rewrite Hc. Qed.

Lemma skip_ws_spaces (n : nat) (s : list ascii) :
  skip_ws (repeat " "%char n ++ s) = skip_ws s.
Proof. induction n as [|n IH]; [done|]. exact IH. Qed.

Lemma skip_ws_newline_indent (lvl : nat) (s : list ascii) :
  skip_ws (newline_indent lvl ++ s) = skip_ws s.
Proof. unfold newline_indent. cbn [app]. cbn [skip_ws]. apply skip_ws_spaces. Qed.

Lemma skip_ws_cons (c : ascii) (s : list ascii) :
  is_ws c = false → skip_ws (c :: s) = c :: s.
Proof. intros Hc. cbn. by rewrite Hc. Qed.

(** Decide the comparisons between two given characters. *)
Ltac eqb_chars :=
  repeat match goal with
    | |- context [Ascii.eqb ?a ?b] =>
        let r := eval vm_compute in (Ascii.eqb a b) in
        match r with
        | true => change (Ascii.eqb a b) with true
        | false => change (Ascii.eqb a b) with false
        end
    end;
  cbv iota.

Lemma emit_starts_value (lvl : nat) (v : pyval) (rest : list ascii) :
  plain v = true → starts_value (emit lvl v ++ rest).
Proof.
  destruct v as [|[]|n|r|s|[|x l]|[|kv d]]; try discriminate; intros _; cbn; done.
Qed.

Lemma emit_str_starts (s : string) (rest : list ascii) :
  ∃ r, emit_str s ++ rest = dquote :: r.
Proof. by eexists. Qed.

(** *** Containers *)

Lemma emit_items_cons (lvl : nat) (x : list ascii) (xs : list (list ascii)) :
  emit_items lvl (x :: xs) = newline_indent lvl ++ x ++ items_tail lvl xs.
Proof. destruct xs; cbn [emit_items items_tail]; by rewrite ?app_nil_r. Qed.

Lemma read_array_emit (scan_once : list ascii → parsed pyval) (lvl lvl0 : nat)
    (vs : list pyval) :
  ∀ (v : pyval) (fuel : nat) (rest : list ascii),
    Forall (λ u, plain u = true ∧
                 ∀ rest', scan_once (emit lvl u ++ rest') = Parsed u rest') (v :: vs) →
    length vs < fuel →
    read_array scan_once fuel
      (emit lvl v ++ items_tail lvl (map (emit lvl) vs)
         ++ newline_indent lvl0 ++ "]"%char :: rest)
    = Parsed (v :: vs) rest.
Proof.
  induction vs as [|v' vs IH]; intros v fuel rest Hall Hfuel;
    destruct fuel as [|fuel]; try (cbn in Hfuel; lia);
    apply Forall_cons in Hall as [[Hv Hscan] Hall];
    cbn [read_array]; rewrite Hscan.
  - cbn [map items_tail app]. rewrite skip_ws_newline_indent. done.
  - cbn [map items_tail app]. rewrite skip_ws_cons by done. eqb_chars.
    rewrite emit_items_cons, <- !app_assoc, skip_ws_newline_indent.
    pose proof Hall as Hall'. apply Forall_cons in Hall' as [[Hv' _] _].
    rewrite skip_ws_value by (by apply emit_starts_value).
    rewrite IH; [done|done|]. cbn in Hfuel. lia.
Qed.

Lemma read_object_emit (scan_once : list ascii → parsed pyval) (lvl lvl0 : nat)
    (kvs : list (string * pyval)) :
  ∀ (kv : string * pyval) (fuel : nat) (rest : list ascii),
    Forall (λ u, plain (snd u) = true ∧
                 ∀ rest', scan_once (emit lvl (snd u) ++ rest') = Parsed (snd u) rest')
           (kv :: kvs) →
    length kvs < fuel →
    read_object scan_once fuel
      (emit_entry lvl kv ++ items_tail lvl (map (emit_entry lvl) kvs)
         ++ newline_indent lvl0 ++ "}"%char :: rest)
    = Parsed (kv :: kvs) rest.
Proof.
  induction kvs as [|kv' kvs IH]; intros [k v] fuel rest Hall Hfuel;
    destruct fuel as [|fuel]; try (cbn in Hfuel; lia);
    apply Forall_cons in Hall as [[Hv Hscan] Hall];
    cbn [fst snd] in Hv, Hscan;
    unfold emit_entry at 1; cbn [fst snd];
    unfold emit_str; rewrite <- !app_assoc; cbn [app read_object]; eqb_chars;
    rewrite <- !app_assoc; cbn [app];
    rewrite read_str_emit;
    change (chars ": ") with [":"%char; " "%char]; cbn [app];
    rewrite skip_ws_cons by done; eqb_chars;
    change (skip_ws (" "%char :: ?s)) with (skip_ws s);
    rewrite (skip_ws_value (emit lvl v ++ _)) by (by apply emit_starts_value);
    rewrite Hscan, string_chars.
  - cbn [map items_tail app]. rewrite skip_ws_newline_indent.
    rewrite skip_ws_cons by done. eqb_chars. done.
  - cbn [map items_tail app]. rewrite skip_ws_cons by done. eqb_chars.
    rewrite emit_items_cons, <- !app_assoc, skip_ws_newline_indent.
    destruct (emit_str_starts (fst kv') 
                (chars ": " ++ emit lvl (snd kv') ++ 
                 items_tail lvl (map (emit_entry lvl) kvs) ++
                 newline_indent lvl0 ++ "}"%char :: rest)) as [r Hr].
    unfold emit_entry at 1. rewrite <- !app_assoc, Hr.
    rewrite skip_ws_cons by done. rewrite <- Hr.
    specialize (IH kv' fuel rest Hall). unfold emit_entry at 1 in IH.
    rewrite <- !app_assoc in IH. rewrite IH; [done|]. cbn in Hfuel. lia.
Qed.

(** *** Dicts *)

Lemma dict_set_fresh (d : list (string * pyval)) (k : string) (v : pyval) :
  k ∉ map fst d → dict_set d k v = d ++ [(k, v)].
Proof.
  induction d as [|[k' v'] d IH]; intros Hk; [done|].
  cbn [dict_set app]. cbn [map fst] in Hk.
  apply not_elem_of_cons in Hk as [Hne Hk].
  destruct (String.eqb k' k) eqn:Heq.
  - apply String.eqb_eq in Heq. congruence.
  - by rewrite IH.
Qed.

Lemma dict_of_pairs_from (d acc : list (string * pyval)) :
  NoDup (map fst (acc ++ d)) →
  fold_left (λ m kv, dict_set m (fst kv) (snd kv)) d acc = acc ++ d.
Proof.
  revert acc. induction d as [|[k v] d IH]; intros acc Hnd; cbn [fold_left].
  - by rewrite app_nil_r.
  - cbn [fst snd]. rewrite dict_set_fresh.
    + rewrite IH; rewrite <- app_assoc; done.
    + rewrite map_app in Hnd. apply NoDup_app in Hnd as [_ [Hdisj _]].
      intros Hk. apply (Hdisj k Hk). cbn. left.
Qed.

Lemma dict_of_pairs_nodup (d : list (string * pyval)) :
  NoDup (map fst d) → dict_of_pairs d = d.
Proof. intros Hnd. unfold dict_of_pairs. by rewrite dict_of_pairs_from. Qed.

(** *** Values *)

Lemma size_pos (v : pyval) : 1 ≤ size v.
Proof. destruct v; cbn; lia. Qed.

Lemma sizes_ge_length {A : Type} (val : A → pyval) (xs : list A) :
  length xs ≤ fold_right (λ x n, size (val x) + n) 0 xs.
Proof.
  induction xs as [|x xs IH]; cbn [length fold_right]; [lia|].
  pose proof (size_pos (val x)). lia.
Qed.

(** What the induction hypothesis on the items of a container gives once
    the fuel covers all of them. *)
Lemma items_ready {A : Type} (val : A → pyval) (lvl fuel : nat) (xs : list A) :
  forallb (λ x, plain (val x)) xs = true →
  Forall (λ x, plain (val x) = true →
               ∀ (lvl : nat) (rest : list ascii) (fuel : nat),
                 size (val x) ≤ fuel →
                 scan fuel (emit lvl (val x) ++ rest) = Parsed (val x) rest) xs →
  fold_right (λ x n, size (val x) + n) 0 xs ≤ fuel →
  Forall (λ x, plain (val x) = true ∧
               ∀ rest', scan fuel (emit lvl (val x) ++ rest') = Parsed (val x) rest') xs
  ∧ length xs ≤ fuel.
Proof.
  intros Hplain IH Hfuel. split.
  - induction xs as [|x xs IHxs]; [constructor|].
    cbn [forallb fold_right] in *.
    apply andb_true_iff in Hplain as [Hx Hxs].
    apply Forall_cons in IH as [IHx IH].
    constructor; [|apply IHxs; [done|done|lia]].
    split; [done|]. intros rest'. apply IHx; [done|lia].
  - pose proof (sizes_ge_length val xs). lia.
Qed.

Lemma scan_emit (v : pyval) :
  plain v = true →
  ∀ (lvl : nat) (rest : list ascii) (fuel : nat),
    size v ≤ fuel → scan fuel (emit lvl v ++ rest) = Parsed v rest.
Proof.
  induction v as [|b|n|r|s|l IH|d IH] using pyval_ind_items;
    intros Hplain lvl rest [|fuel] Hfuel;
    try discriminate; try (cbn in Hfuel; lia).
  - reflexivity.
  - destruct b; reflexivity.
  - cbn [emit]. unfold emit_str. cbn [app scan]. eqb_chars.
    rewrite <- app_assoc. cbn [app]. by rewrite read_str_emit, string_chars.
  - cbn [plain] in Hplain. cbn [size] in Hfuel. apply Nat.succ_le_mono in Hfuel.
    destruct l as [|x l]; [reflexivity|].
    destruct (items_ready (λ u, u) (S lvl) fuel (x :: l) Hplain IH Hfuel)
      as [Hready Hlen].
    cbn [emit map]. rewrite emit_items_cons. cbn [app scan]. eqb_chars.
    rewrite <- !app_assoc, skip_ws_newline_indent.
    pose proof Hready as Hx. apply Forall_cons in Hx as [[Hx _] _].
    destruct (emit (S lvl) x ++ _) as [|c r] eqn:Htext.
    { pose proof (emit_starts_value (S lvl) x
                    (items_tail (S lvl) (map (emit (S lvl)) l)
                       ++ newline_indent lvl ++ ["]"%char] ++ rest) Hx) as Hsv.
      by rewrite Htext in Hsv. }
    assert (Hc : starts_value (c :: r)).
    { rewrite <- Htext. by apply emit_starts_value. }
    rewrite skip_ws_value by done.
    destruct Hc as [_ [Hc _]]. apply Ascii.eqb_neq in Hc. rewrite Hc.
    rewrite <- Htext. cbn [app].
    rewrite (read_array_emit (scan fuel) (S lvl) lvl l x fuel rest Hready); [done|].
    cbn in Hlen. lia.
  - cbn [plain] in Hplain. apply andb_true_iff in Hplain as [Hplain Hnd].
    apply bool_decide_eq_true in Hnd.
    cbn [size] in Hfuel. apply Nat.succ_le_mono in Hfuel.
    destruct d as [|kv d]; [reflexivity|].
    destruct (items_ready snd (S lvl) fuel (kv :: d) Hplain IH Hfuel)
      as [Hready Hlen].
    cbn [emit map]. fold (emit_entry (S lvl) kv).
    change (map (λ kv0, emit_str (fst kv0) ++ chars ": " ++ emit (S lvl) (snd kv0)) d)
      with (map (emit_entry (S lvl)) d).
    rewrite emit_items_cons. cbn [app scan]. eqb_chars.
    rewrite <- !app_assoc, skip_ws_newline_indent.
    destruct (emit_str_starts (fst kv)
                (chars ": " ++ emit (S lvl) (snd kv)
                   ++ items_tail (S lvl) (map (emit_entry (S lvl)) d)
                   ++ newline_indent lvl ++ ["}"%char] ++ rest)) as [r Hr].
    unfold emit_entry at 1. rewrite <- !app_assoc, Hr.
    rewrite skip_ws_cons by done. eqb_chars. rewrite <- Hr.
    pose proof (read_object_emit (scan fuel) (S lvl) lvl d kv fuel rest Hready) as Hobj.
    unfold emit_entry at 1 in Hobj. rewrite <- !app_assoc in Hobj. cbn [app] in Hobj |- *.
    rewrite Hobj; [|cbn in Hlen; lia].
    by rewrite dict_of_pairs_nodup.
Qed.

(** *** The whole text *)

Lemma items_length {A : Type} (val : A → pyval) (txt : A → list ascii)
    (lvl : nat) (xs : list A) :
  Forall (λ x, size (val x) ≤ length (txt x)) xs →
  fold_right (λ x n, size (val x) + n) 0 xs ≤ length (emit_items lvl (map txt xs)).
Proof.
  induction 1 as [|x xs Hx _ IH]; [done|].
  cbn [map fold_right]. rewrite emit_items_cons, !length_app.
  assert (length (emit_items lvl (map txt xs))
          ≤ length (items_tail lvl (map txt xs))).
  { destruct (map txt xs); cbn [items_tail length]; [done|lia]. }
  lia.
Qed.

Lemma items_sized {A : Type} (val : A → pyval) (lvl : nat) (xs : list A) :
  forallb (λ x, plain (val x)) xs = true →
  Forall (λ x, plain (val x) = true → ∀ lvl, size (val x) ≤ length (emit lvl (val x))) xs →
  Forall (λ x, size (val x) ≤ length (emit lvl (val x))) xs.
Proof.
  induction xs as [|x xs IHxs]; intros Hplain IH; constructor;
    cbn [forallb] in Hplain; apply andb_true_iff in Hplain as [Hx Hxs];
    apply Forall_cons in IH as [IHx IH]; auto.
Qed.

Lemma size_le_length (v : pyval) :
  plain v = true → ∀ lvl, size v ≤ length (emit lvl v).
Proof.
  induction v as [|b|n|r|s|l IH|d IH] using pyval_ind_items;
    intros Hplain lvl; try discriminate.
  - cbn. lia.
  - destruct b; cbn; lia.
  - cbn [emit size]. unfold emit_str. cbn [length]. lia.
  - cbn [plain] in Hplain. destruct l as [|x l]; [cbn; lia|].
    pose proof (items_length (λ u, u) (emit (S lvl)) (S lvl) (x :: l)
                  (items_sized (λ u, u) (S lvl) (x :: l) Hplain IH)) as Hlen.
    cbn [emit size length]. rewrite length_app. lia.
  - cbn [plain] in Hplain. apply andb_true_iff in Hplain as [Hplain _].
    destruct d as [|kv d]; [cbn; lia|].
    pose proof (items_length snd (emit_entry (S lvl)) (S lvl) (kv :: d)) as Hlen.
    cbn [emit size length]. rewrite length_app.
    change (map (λ kv0, emit_str (fst kv0) ++ chars ": " ++ emit (S lvl) (snd kv0)) (kv :: d))
      with (map (emit_entry (S lvl)) (kv :: d)).
    enough (Forall (λ x, size (snd x) ≤ length (emit_entry (S lvl) x)) (kv :: d)) as Hall.
    { specialize (Hlen Hall). lia. }
    eapply Forall_impl; [apply (items_sized snd (S lvl) (kv :: d) Hplain IH)|].
    intros u Hu. cbv beta in Hu. unfold emit_entry. rewrite !length_app. lia.
Qed.

(** The reader reads back what the writer wrote. *)
Lemma loads_dumps (v : pyval) : plain v = true → loads (dumps v) = inr v.
Proof.
  intros Hplain. unfold loads, dumps. rewrite chars_string.
  pose proof (emit_starts_value 0 v [] Hplain) as Hsv. rewrite app_nil_r in Hsv.
  rewrite skip_ws_value by done.
  pose proof (scan_emit v Hplain 0 [] (length (emit 0 v)) (size_le_length v Hplain 0)) as Hscan.
  rewrite app_nil_r in Hscan. by rewrite Hscan.
Qed.

Lemma lib_roundtrip : codec_roundtrip lib.
Proof. intros v Hv. by apply loads_dumps. Qed.
End RefJsonFacts.



(** ** The storage methods on the sample data *)

(** Saving two tasks and loading them back. *)
Lemma save_load_roundtrip_witness :
  (save (L := RefJson.lib) sample_env sample_storage [task_a; task_b] empty_fs).2 = Ok tt
  ∧ load (L := RefJson.lib) sample_env
      (save (L := RefJson.lib) sample_env sample_storage [task_a; task_b] empty_fs).1
      sample_storage
    = Ok [task_a; task_b].
Proof.
  split; [by vm_compute|].
  apply (save_load_roundtrip (L := RefJson.lib) sample_env sample_env sample_storage
           [task_a; task_b] empty_fs RefJsonFacts.lib_roundtrip); by vm_compute.
Defined.

(** Loading from an empty directory, even when reads would fail. *)
Lemma load_missing_path_witness :
  path_exists empty_fs (path sample_storage) = false
  ∧ load (L := RefJson.lib) unreadable_env empty_fs sample_storage = Ok [].
Proof.
  split; [by vm_compute|].
  apply (load_missing_path (L := RefJson.lib) unreadable_env empty_fs sample_storage).
  by vm_compute.
Defined.

(** A null under [tasks], and no [tasks] key at all. *)
Lemma load_null_tasks_witness :
  load (L := RefJson.lib) sample_env (fs_with null_tasks_text) sample_storage
  = Raise (StorageError "unexpected file format in /data/tasks.json")
  ∧ load (L := RefJson.lib) sample_env (fs_with no_tasks_text) sample_storage
    = Raise (StorageError "unexpected file format in /data/tasks.json").
Proof.
  split.
  - apply (load_null_tasks (L := RefJson.lib) sample_env (fs_with null_tasks_text)
             sample_storage null_tasks_text [("tasks", PNone)]);
      [by vm_compute | by vm_compute | by vm_compute | left; by vm_compute].
  - apply (load_null_tasks (L := RefJson.lib) sample_env (fs_with no_tasks_text)
             sample_storage no_tasks_text [("version", PStr "1.0")]);
      [by vm_compute | by vm_compute | by vm_compute | right; by vm_compute].
Defined.

(** The file of the test suite that is not JSON. *)
Lemma load_errors_witness :
  path_exists (fs_with "not a json") (path sample_storage) = true
  ∧ load (L := RefJson.lib) sample_env (fs_with "not a json") sample_storage
    = Raise (StorageError
               "invalid JSON in /data/tasks.json: Expecting value: line 1 column 1 (char 0)").
Proof.
  split; [by vm_compute|].
  destruct (load_errors (L := RefJson.lib) sample_env (fs_with "not a json") sample_storage)
    as [_ [Hjson _]]; [by vm_compute|].
  apply (Hjson "not a json" "Expecting value: line 1 column 1 (char 0)"); by vm_compute.
Defined.

(** C3, as the spec states it, fails: an unparseable file, an unreadable
    file and a file whose document is a list instead of a dict raise errors
    of one and the same class. *)
Lemma load_errors_share_class :
  ∃ e1 e2 e3,
    load (L := RefJson.lib) sample_env (fs_with "not a json") sample_storage = Raise e1
    ∧ load (L := RefJson.lib) unreadable_env (fs_with "not a json") sample_storage = Raise e2
    ∧ load (L := RefJson.lib) sample_env (fs_with "[]") sample_storage = Raise e3
    ∧ class_of e1 = CStorageError
    ∧ class_of e2 = CStorageError
    ∧ class_of e3 = CStorageError.
Proof. do 3 eexists. repeat split; by vm_compute. Qed.

(** Two tasks added to an empty directory. *)
Lemma add_task_appends_witness :
  load (L := RefJson.lib) sample_env
    (add_task (L := RefJson.lib) sample_env sample_storage task_b
       (add_task (L := RefJson.lib) sample_env sample_storage task_a empty_fs).1).1
    sample_storage
  = Ok [task_a; task_b].
Proof.
  apply (proj2 (add_task_appends (L := RefJson.lib) sample_env sample_env sample_env
                  sample_storage task_a task_b empty_fs RefJsonFacts.lib_roundtrip));
    by vm_compute.
Defined.

(** The end-to-end scenario of the tests: create, save, load. *)
Example create_save_load :
  ∃ t, create (uuid_hex sample_env) (now sample_env) "Test task" (Some [PStr "unit"]) None None
       = Ok t
       ∧ load (L := RefJson.lib) sample_env
           (save (L := RefJson.lib) sample_env sample_storage [t] empty_fs).1 sample_storage
         = Ok [t]
       ∧ description t = "Test task" ∧ tags t = [PStr "unit"].
Proof.
  exists (mkTask (uuid_hex sample_env) "Test task" (now sample_env) false [PStr "unit"]).
  repeat split; by vm_compute.
Qed.

(** A disk that fills up while the temporary file is written: the call
    raises, the real file keeps its text and the temporary file is left
    behind with what had been written. *)
Example save_disk_full :
  let run := save (L := RefJson.lib) disk_full_env sample_storage [task_a] (fs_with empty_tasks_text) in
  run.2 = Raise (StorageError
                   "could not write /data/tasks.json: [Errno 28] No space left on device")
  ∧ files run.1 !! "/data/tasks.json" = Some (Text empty_tasks_text)
  ∧ files run.1 !! "/data/tasks.json.tmp" = Some (Text (substring 0 10 (RefJson.dumps (save_data (now disk_full_env) [task_a])))).
Proof. repeat split; by vm_compute. Qed.

(** One record with a number under [tags] makes the whole [load] raise. *)
Example load_bad_record :
  load (L := RefJson.lib) sample_env
    (fs_with bad_record_text) sample_storage
  = Raise TypeError.
Proof. by vm_compute. Qed.

(** A file that is not UTF-8 raises UnicodeDecodeError, which [load] does
    not turn into a StorageError. *)
Example load_not_utf8 (L : Lib) :
  load sample_env (mkFs {[ "/data/tasks.json" := NotUtf8 ]} ∅) sample_storage
  = Raise UnicodeDecodeError.
Proof. reflexivity. Qed.



(** * Further properties *)

(** ** models.py *)

(** X1.  [Task.from_dict] undoes [Task.to_dict] on every task, so two tasks
    with the same dict are the same task. *)
Theorem to_dict_roundtrip (now_ : string) (t u : Task) :
  from_dict now_ (to_dict t) = Ok t ∧ (to_dict t = to_dict u → t = u).
Proof.
  split; [by destruct t|].
  intros Heq. assert (Ok t = Ok u) as Hok; [|by injection Hok].
  rewrite <- (from_dict_to_dict now_ t), <- (from_dict_to_dict now_ u). by rewrite Heq.
Qed.

(** X2.  [Task.from_dict] reads the five keys of a task and nothing else:
    two dicts that agree on them decode alike, whatever else they hold and in
    whatever order. *)
Theorem from_dict_reads_task_keys (now_ : string) (d d' : list (string * pyval)) :
  (∀ k, k ∈ task_keys → dict_lookup d k = dict_lookup d' k) →
  from_dict now_ (PDict d) = from_dict now_ (PDict d').
Proof.
  intros Hkeys. unfold from_dict, dict_get.
  rewrite !(Hkeys "id"), !(Hkeys "description"), !(Hkeys "created"),
    !(Hkeys "completed"), !(Hkeys "tags"); [done|..];
    unfold task_keys; repeat (first [apply list_elem_of_here | apply list_elem_of_further]).
Qed.

(** A record with its keys in another order and two keys more. *)
Lemma from_dict_reads_task_keys_witness :
  from_dict "2026-11-03T10:00:00+00:00"
    (PDict [("id", PStr "a1"); ("description", PStr "Test task"); ("tags", PList [PStr "unit"])])
  = from_dict "2026-11-03T10:00:00+00:00"
      (PDict [("priority", PInt 3); ("tags", PList [PStr "unit"]);
              ("description", PStr "Test task"); ("id", PStr "a1"); ("owner", PNone)]).
Proof.
  apply from_dict_reads_task_keys. intros k Hk.
  unfold task_keys in Hk. repeat (apply elem_of_cons in Hk as [->|Hk]; [reflexivity|]).
  by apply elem_of_nil in Hk.
Defined.

Lemma lstrip_trimmed (s : string) : starts_with_space s = false → lstrip s = s.
Proof. destruct s as [|c s]; [done|]. simpl. by intros ->. Qed.

Lemma rstrip_trimmed (s : string) : ends_with_space s = false → rstrip s = s.
Proof.
  induction s as [|c s IH]; [done|]. intros Hs. cbn [rstrip].
  destruct s as [|c' s].
  - simpl in *. by rewrite Hs.
  - rewrite IH by exact Hs. done.
Qed.

Lemma strip_idempotent (s : string) : strip (strip s) = strip s.
Proof.
  destruct (strip_ends s) as [H1 H2]. unfold strip at 1.
  by rewrite (lstrip_trimmed _ H1), (rstrip_trimmed _ H2).
Qed.

(** X3.  The description that [Task.create] stores is stable: given again to
    [Task.create] it is accepted and stored unchanged. *)
Theorem create_description_stable (uuid now_ d : string) (tags_ : option (list pyval))
    (id_ created_ : option string) (t : Task) :
  create uuid now_ d tags_ id_ created_ = Ok t →
  ∀ uuid' now' tags' id' created',
    ∃ t', create uuid' now' (description t) tags' id' created' = Ok t'
          ∧ description t' = description t.
Proof.
  intros Hc uuid' now' tags' id' created'. unfold create in Hc.
  destruct (String.eqb d "" || String.eqb (strip d) "") eqn:Hcond; [discriminate|].
  injection Hc as <-. cbn [description].
  apply orb_false_iff in Hcond as [_ Hs].
  unfold create. rewrite strip_idempotent, Hs. cbn [orb].
  eexists. split; [reflexivity|]. done.
Qed.

(** The description [ hi ] is stored as [hi], and [hi] is stored as it is. *)
Lemma create_description_stable_witness :
  ∃ t', create "u2" "n2" "hi" None None None = Ok t' ∧ description t' = "hi".
Proof.
  exact (create_description_stable "u" "n" " hi " None None None
           (mkTask "u" "hi" "n" false []) eq_refl "u2" "n2" None None None).
Defined.


(** ** storage.py *)

(** The [try] block of [Storage.save] touches the temporary and the real
    path only, and no directory. *)
Lemma write_steps_frame (flt : write_fault) (tmp p text : string) (fs : filesystem)
    (q : string) :
  q ≠ tmp → q ≠ p →
  let run :=
    (_ ← open_w flt tmp;
     _ ← file_dump flt tmp text;
     _ ← file_flush flt;
     _ ← os_fsync flt;
     _ ← file_close flt;
     os_replace flt tmp p) fs in
  files run.1 !! q = files fs !! q ∧ dirs run.1 = dirs fs.
Proof.
  intros Hq1 Hq2 run. subst run.
  unfold open_w, file_dump, file_flush, os_fsync, file_close, os_replace.
  destruct flt as [|m|m|n m|n m|m|m|m]; io_step; try done.
  all: destruct (bool_decide (tmp ∈ dirs fs)) eqn:Htmp; io_step; try done.
  all: rewrite ?lookup_insert_eq; io_step.
  all: try (by rewrite ?lookup_insert_ne by done).
  all: destruct (bool_decide (p ∈ dirs fs)) eqn:Hp; io_step.
  all: by rewrite ?lookup_insert_ne, ?lookup_delete_ne, ?lookup_insert_ne by done.
Qed.

(** What the [try] block leaves at the temporary path. *)
Lemma write_steps_tmp (flt : write_fault) (tmp p text : string) (fs : filesystem) :
  tmp ≠ p → tmp ∉ dirs fs →
  let run :=
    (_ ← open_w flt tmp;
     _ ← file_dump flt tmp text;
     _ ← file_flush flt;
     _ ← os_fsync flt;
     _ ← file_close flt;
     os_replace flt tmp p) fs in
  files run.1 !! tmp =
    match flt with
    | OpenFails _ => files fs !! tmp
    | DumpFails n _ | FlushFails n _ => Some (Text (substring 0 n text))
    | FsyncFails _ | CloseFails _ | ReplaceFails _ => Some (Text text)
    | WriteOk | MakedirsFails _ => if bool_decide (p ∈ dirs fs) then Some (Text text) else None
    end.
Proof.
  intros Hne Htmp run. subst run.
  unfold open_w, file_dump, file_flush, os_fsync, file_close, os_replace.
  destruct flt as [|m|m|n m|n m|m|m|m]; io_step; try done.
  all: rewrite (bool_decide_eq_false_2 _ Htmp); io_step.
  all: rewrite ?lookup_insert_eq; io_step; try done.
  all: destruct (bool_decide (p ∈ dirs fs)) eqn:Hp; io_step.
  all: rewrite ?lookup_insert_eq; try done.
  all: by rewrite lookup_insert_ne, lookup_delete_eq by done.
Qed.

Lemma heads_shorter (before rest : string) (acc : list string) (a : string) :
  a ∈ heads before rest acc →
  a ∈ acc ∨ String.length a < String.length before + String.length rest.
Proof.
  revert before acc. induction rest as [|c r IH]; intros before acc Ha; cbn [heads] in Ha.
  - by left.
  - apply IH in Ha as [Ha|Ha].
    + destruct (Ascii.eqb c "/" && negb (String.eqb before "")); [|by left].
      apply elem_of_cons in Ha as [->|Ha]; [|by left].
      right. cbn [String.length]. lia.
    + right. rewrite length_append in Ha. cbn [String.length] in Ha |- *. lia.
Qed.

(** A path is not among the directories above it. *)
Lemma parents_proper (p : string) : p ∉ parents p.
Proof.
  intros Hp. apply heads_shorter in Hp as [Hp|Hp]; [by apply elem_of_nil in Hp|].
  cbn [String.length] in Hp. lia.
Qed.

Lemma missing_above_subseteq (fs : filesystem) (above : list string) :
  missing_above fs above ⊆ above.
Proof.
  induction above as [|a r IH]; cbn [missing_above]; [done|].
  destruct (path_exists fs a); [apply list_subseteq_nil|].
  intros x. rewrite !elem_of_cons. intros [->|Hx]; [by left|right; by apply IH].
Qed.

Lemma elem_of_rev {A : Type} (x : A) (l : list A) : x ∈ rev l ↔ x ∈ l.
Proof. rewrite !list_elem_of_In. symmetry. apply in_rev. Qed.

Lemma to_make_above_subseteq (fs : filesystem) (p : string) :
  to_make_above fs p ⊆ parents p.
Proof.
  unfold to_make_above. intros x. rewrite elem_of_rev. apply missing_above_subseteq.
Qed.

Lemma elem_of_take_l {A : Type} (n : nat) (l : list A) (x : A) : x ∈ take n l → x ∈ l.
Proof. intros H. rewrite <- (take_drop n l). apply elem_of_app. by left. Qed.

(** What [os.makedirs] does when called for a path that does not exist. *)
Lemma os_makedirs_cases (flt : write_fault) (made : nat) (p : string) (fs : filesystem) :
  path_exists fs p = false →
  let run := os_makedirs flt made p fs in
  files run.1 = files fs
  ∧ dirs fs ⊆ dirs run.1
  ∧ dirs run.1 ⊆ dirs fs ∪ list_to_set (p :: parents p)
  ∧ match run.2 with
    | Ok _ => dirs run.1 = dirs fs ∪ list_to_set (p :: missing_above fs (parents p))
    | Raise ex => (p ∉ dirs run.1) ∧ ∃ msg, flt = MakedirsFails msg ∧ ex = OSError msg
    end.
Proof.
  intros Hex run. subst run. unfold os_makedirs.
  pose proof (to_make_above_subseteq fs p) as Hsub.
  apply path_exists_false in Hex as [Hnone Hdir]. rewrite Hnone.
  rewrite bool_decide_eq_false_2 by (by intros [? ?]).
  assert (Hok : dirs (add_dirs (to_make_above fs p ++ [p]) fs)
                = dirs fs ∪ list_to_set (p :: missing_above fs (parents p))).
  { unfold add_dirs, to_make_above. cbn [dirs]. apply set_eq. intros x.
    rewrite !elem_of_union, !elem_of_list_to_set, elem_of_app, elem_of_rev,
      !elem_of_cons, elem_of_nil. tauto. }
  assert (Hupper : dirs (add_dirs (to_make_above fs p ++ [p]) fs)
                   ⊆ dirs fs ∪ list_to_set (p :: parents p)).
  { rewrite Hok. intros x. rewrite !elem_of_union, !elem_of_list_to_set, !elem_of_cons.
    intros [?|[?|Hx]]; auto. right. right. by apply missing_above_subseteq in Hx. }
  assert (Hlower : ∀ l, dirs fs ⊆ dirs (add_dirs l fs)).
  { intros l x Hx. unfold add_dirs. cbn [dirs]. apply elem_of_union. by right. }
  destruct flt as [|m|m|n m|n m|m|m|m]; cbn [fst snd];
    try (split_and!; [done|apply Hlower|apply Hupper|apply Hok]).
  split_and!; [done|apply Hlower| | |by eexists].
  - unfold add_dirs. cbn [dirs]. intros x.
    rewrite !elem_of_union, !elem_of_list_to_set, elem_of_cons.
    intros [Hx|?]; [|by left]. right. right. by apply elem_of_take_l, Hsub in Hx.
  - unfold add_dirs. cbn [dirs]. rewrite not_elem_of_union, elem_of_list_to_set.
    split; [|done]. intros Hx. by apply elem_of_take_l, Hsub, parents_proper in Hx.
Qed.

Section storage_more.
Context {L : Lib}.

(** X4.  [Storage._ensure_parent] never touches a file and removes no
    directory; the directories it adds are the parent of the backing path or
    lie above it.  When the parent path exists already, as a directory or as
    a file, or has the empty name, it does nothing.  Otherwise, when it
    returns, the parent and every missing directory between it and the
    nearest path above it that exists have been made, so the parent path
    exists; and it raises only when a directory cannot be made: then the
    parent is still missing, though directories above it may have been
    made. *)
Theorem ensure_parent_spec (e : env) (self : Storage) (fs : filesystem) :
  let parent := dirname (abspath (path self)) in
  let run := _ensure_parent e self fs in
  files run.1 = files fs
  ∧ dirs fs ⊆ dirs run.1
  ∧ dirs run.1 ⊆ dirs fs ∪ list_to_set (parent :: parents parent)
  ∧ (parent = "" ∨ path_exists fs parent = true → run = (fs, Ok tt))
  ∧ (run.2 = Ok tt → parent = "" ∨ path_exists run.1 parent = true)
  ∧ (run.2 = Ok tt → parent ≠ "" → path_exists fs parent = false →
     dirs run.1 = dirs fs ∪ list_to_set (parent :: missing_above fs (parents parent)))
  ∧ (∀ ex, run.2 = Raise ex →
       path_exists fs parent = false ∧ (parent ∉ dirs run.1)
       ∧ ∃ msg, wfault e = MakedirsFails msg ∧ ex = OSError msg).
Proof.
  intros parent run. subst run. unfold _ensure_parent. fold parent.
  destruct (String.eqb parent "") eqn:Hp; cbn [negb andb].
  { apply String.eqb_eq in Hp. split_and!; auto; try done. set_solver. }
  apply String.eqb_neq in Hp.
  destruct (path_exists fs parent) eqn:Hex; cbn [negb].
  { split_and!; auto; try done. set_solver. }
  pose proof (os_makedirs_cases (wfault e) (mkdirs_made e) parent fs Hex) as Hc.
  cbv zeta in Hc. destruct Hc as (Hf & Hlow & Hup & Hend).
  destruct (os_makedirs (wfault e) (mkdirs_made e) parent fs) as [fs1 [[]|ex]];
    cbn [fst snd] in *.
  - rename Hend into Hdirs. split_and!; try done.
    + by intros [?|?].
    + intros _. right. unfold path_exists. apply orb_true_iff. right.
      apply bool_decide_eq_true. rewrite Hdirs, elem_of_union, elem_of_list_to_set.
      right. by left.
  - destruct Hend as [Hnot [msg [Hflt ->]]]. split_and!; try done.
    + by intros [?|?].
    + intros ex [= <-]. eauto.
Qed.

(** X5.  [Storage.save] leaves every file other than the backing path and
    its temporary sibling as it was, and removes no directory: the only ones
    it may add are the parent of the backing path and the directories above
    it. *)
Theorem save_frame (e : env) (self : Storage) (ts : list Task) (fs : filesystem)
    (q : string) :
  q ≠ path self → q ≠ path self +:+ ".tmp" →
  let parent := dirname (abspath (path self)) in
  files (save e self ts fs).1 !! q = files fs !! q
  ∧ dirs fs ⊆ dirs (save e self ts fs).1
  ∧ dirs (save e self ts fs).1 ⊆ dirs fs ∪ list_to_set (parent :: parents parent).
Proof.
  intros Hq1 Hq2 parent. unfold save. rewrite io_bind_unfold.
  assert (Hep : files (_ensure_parent e self fs).1 = files fs
                ∧ dirs fs ⊆ dirs (_ensure_parent e self fs).1
                ∧ dirs (_ensure_parent e self fs).1
                  ⊆ dirs fs ∪ list_to_set (parent :: parents parent)).
  { unfold _ensure_parent. fold parent.
    destruct (negb (String.eqb parent "")); cbn [andb fst]; [|set_solver].
    destruct (path_exists fs parent) eqn:Hex; cbn [negb fst]; [set_solver|].
    pose proof (os_makedirs_cases (wfault e) (mkdirs_made e) parent fs Hex) as Hc.
    cbv zeta in Hc. by destruct Hc as (Hf & Hlow & Hup & _). }
  destruct (_ensure_parent e self fs) as [fs1 [[]|ex]]; cbn [fst snd] in Hep;
    destruct Hep as [Hf [Hd1 Hd2]].
  2: { cbn [fst]. by rewrite Hf. }
  rewrite io_bind_unfold. unfold io_lift. rewrite create_meta.
  cbv beta iota. cbn [created]. unfold except_OSError.
  pose proof (write_steps_frame (wfault e) (path self +:+ ".tmp") (path self)
                (json_dumps (save_data (now e) ts)) fs1 q Hq2 Hq1) as Hrun.
  cbv zeta in Hrun.
  destruct ((_ ← open_w _ _; _) fs1) as [fs2 [[]|ex]]; cbn [fst snd] in Hrun;
    destruct Hrun as [Hfiles Hdirs].
  - cbn [fst]. by rewrite Hfiles, Hf, Hdirs.
  - destruct ex; unfold io_raise; cbn [fst]; by rewrite Hfiles, Hf, Hdirs.
Qed.

End storage_more.

(** A disk that fills up during a save leaves a neighbouring file alone. *)
Lemma save_frame_witness :
  files (save (L := RefJson.lib) disk_full_env sample_storage [task_a]
           (mkFs {[ "/data/notes.txt" := Text "keep" ]} {[ "/data" ]})).1 !! "/data/notes.txt"
  = Some (Text "keep").
Proof.
  pose proof (save_frame (L := RefJson.lib) disk_full_env sample_storage [task_a]
                (mkFs {[ "/data/notes.txt" := Text "keep" ]} {[ "/data" ]})
                "/data/notes.txt") as [H _]; [by vm_compute | by vm_compute|].
  rewrite H. by vm_compute.
Defined.


(** A save two directories below [/data] makes both of them. *)
Example save_makes_parents :
  dirs (save (L := RefJson.lib) sample_env deep_storage [task_a] empty_fs).1
  = {[ "/data"; "/data/sub"; "/data/sub/deep" ]}.
Proof. by vm_compute. Qed.

(** An [os.makedirs] that fails at the second of them leaves the first. *)
Example ensure_parent_partial :
  _ensure_parent (L := RefJson.lib) one_more_dir_env deep_storage empty_fs
  = (mkFs ∅ {[ "/data"; "/data/sub" ]},
     Raise (OSError "[Errno 28] No space left on device: '/data/sub/deep'")).
Proof. by vm_compute. Qed.

(** When the [try] block returns, neither path is a directory, and the
    files are the old ones with the temporary file gone and the text at the
    real path. *)
Lemma write_steps_ok (flt : write_fault) (tmp p text : string) (fs : filesystem) :
  let run :=
    (_ ← open_w flt tmp;
     _ ← file_dump flt tmp text;
     _ ← file_flush flt;
     _ ← os_fsync flt;
     _ ← file_close flt;
     os_replace flt tmp p) fs in
  run.2 = Ok tt →
  (tmp ∉ dirs fs) ∧ (p ∉ dirs fs)
  ∧ files run.1 = <[p := Text text]> (delete tmp (files fs))
  ∧ dirs run.1 = dirs fs.
Proof.
  intros run. subst run.
  unfold open_w, file_dump, file_flush, os_fsync, file_close, os_replace.
  destruct flt as [|m|m|n m|n m|m|m|m]; io_step; try discriminate.
  all: destruct (bool_decide (tmp ∈ dirs fs)) eqn:Htmp; io_step; try discriminate.
  all: rewrite ?lookup_insert_eq; io_step.
  all: destruct (bool_decide (p ∈ dirs fs)) eqn:Hp; io_step; try discriminate.
  all: intros _; apply bool_decide_eq_false in Htmp, Hp.
  all: by rewrite !delete_insert_eq.
Qed.

Section storage_outcomes.
Context {L : Lib}.

(** X6.  When [Storage.save] returns, the files are exactly the old ones
    with the real path holding the whole serialized text and without the
    temporary file; neither path is a directory. *)
Theorem save_returns_clean (e : env) (self : Storage) (ts : list Task) (fs : filesystem) :
  (save e self ts fs).2 = Ok tt →
  files (save e self ts fs).1
  = <[path self := Text (json_dumps (save_data (now e) ts))]>
      (delete (path self +:+ ".tmp") (files fs))
  ∧ files (save e self ts fs).1 !! (path self +:+ ".tmp") = None
  ∧ (path self ∉ dirs (save e self ts fs).1)
  ∧ ((path self +:+ ".tmp") ∉ dirs (save e self ts fs).1).
Proof.
  unfold save. rewrite io_bind_unfold.
  destruct (ensure_parent_cases e self fs) as [(msg & fs1 & Hflt & -> & Hf)|[fs1 [-> Hf]]];
    [discriminate|].
  rewrite io_bind_unfold. unfold io_lift. rewrite create_meta.
  cbv beta iota. cbn [created]. unfold except_OSError.
  pose proof (write_steps_ok (wfault e) (path self +:+ ".tmp") (path self)
                (json_dumps (save_data (now e) ts)) fs1) as Hrun.
  cbv zeta in Hrun.
  destruct ((_ ← open_w _ _; _) fs1) as [fs2 [[]|ex]]; cbn [fst snd] in Hrun |- *.
  - intros _. destruct Hrun as [Htmp [Hp [Hfiles Hdirs]]]; [done|].
    rewrite Hfiles, Hdirs, Hf. repeat split; try done.
    rewrite lookup_insert_ne by (symmetry; apply tmp_path_ne).
    apply lookup_delete_eq.
  - destruct ex; unfold io_raise; cbn [snd]; discriminate.
Qed.

(** X7.  When a step fails after the temporary file was opened, the file
    stays behind: with the part of the text that had been written when the
    write or the flush fails, with the whole text when the sync, the close or
    the rename fails.  This is for a temporary path that is no directory and
    that [save] does not make one: it is neither the parent of the backing
    path nor one of the directories above the parent. *)
Theorem save_failure_litter (e : env) (self : Storage) (ts : list Task) (fs : filesystem) :
  (path self +:+ ".tmp") ∉ dirs fs →
  dirname (abspath (path self)) ≠ path self +:+ ".tmp" →
  (path self +:+ ".tmp") ∉ parents (dirname (abspath (path self))) →
  let text := json_dumps (save_data (now e) ts) in
  match wfault e with
  | DumpFails n _ | FlushFails n _ =>
      files (save e self ts fs).1 !! (path self +:+ ".tmp") = Some (Text (substring 0 n text))
  | FsyncFails _ | CloseFails _ | ReplaceFails _ =>
      files (save e self ts fs).1 !! (path self +:+ ".tmp") = Some (Text text)
  | OpenFails _ =>
      files (save e self ts fs).1 !! (path self +:+ ".tmp")
      = files fs !! (path self +:+ ".tmp")
  | WriteOk | MakedirsFails _ => True
  end.
Proof.
  intros Htmp Hparent Habove text. subst text.
  assert (Hcase : match wfault e with WriteOk | MakedirsFails _ => True | _ =>
            ∃ fs1, _ensure_parent e self fs = (fs1, Ok tt) ∧ files fs1 = files fs
                   ∧ (path self +:+ ".tmp") ∉ dirs fs1 end).
  { assert (Hdirs : (path self +:+ ".tmp") ∉ dirs (_ensure_parent e self fs).1).
    { unfold _ensure_parent.
      destruct (negb (String.eqb _ "")); cbn [andb fst]; [|done].
      destruct (path_exists fs _) eqn:Hex; cbn [negb fst]; [done|].
      pose proof (os_makedirs_cases (wfault e) (mkdirs_made e) _ fs Hex) as Hc.
      cbv zeta in Hc. destruct Hc as (_ & _ & Hup & _). intros Hin.
      apply Hup in Hin. revert Hin.
      rewrite elem_of_union, elem_of_list_to_set, elem_of_cons.
      intros [?|[?|?]]; [done|congruence|done]. }
    destruct (ensure_parent_cases e self fs) as [(msg & fs1 & Hflt & Hrun & Hf)|[fs1 [Hrun Hf]]];
      rewrite Hrun in Hdirs; [by rewrite Hflt|].
    destruct (wfault e); try done; by exists fs1. }
  unfold save. rewrite io_bind_unfold.
  destruct (wfault e) as [|m|m|n m|n m|m|m|m] eqn:Hflt; try done;
    destruct Hcase as [fs1 [-> [Hf Htmp1]]];
    rewrite io_bind_unfold; unfold io_lift; rewrite create_meta;
    cbv beta iota; cbn [created]; unfold except_OSError.
  1: pose proof (write_steps_tmp (OpenFails m) (path self +:+ ".tmp") (path self)
                (json_dumps (save_data (now e) ts)) fs1 (tmp_path_ne _) Htmp1) as Hrun.
  2: pose proof (write_steps_tmp (DumpFails n m) (path self +:+ ".tmp") (path self)
                (json_dumps (save_data (now e) ts)) fs1 (tmp_path_ne _) Htmp1) as Hrun.
  3: pose proof (write_steps_tmp (FlushFails n m) (path self +:+ ".tmp") (path self)
                (json_dumps (save_data (now e) ts)) fs1 (tmp_path_ne _) Htmp1) as Hrun.
  4: pose proof (write_steps_tmp (FsyncFails m) (path self +:+ ".tmp") (path self)
                (json_dumps (save_data (now e) ts)) fs1 (tmp_path_ne _) Htmp1) as Hrun.
  5: pose proof (write_steps_tmp (CloseFails m) (path self +:+ ".tmp") (path self)
                (json_dumps (save_data (now e) ts)) fs1 (tmp_path_ne _) Htmp1) as Hrun.
  6: pose proof (write_steps_tmp (ReplaceFails m) (path self +:+ ".tmp") (path self)
                (json_dumps (save_data (now e) ts)) fs1 (tmp_path_ne _) Htmp1) as Hrun.
  all: cbv zeta in Hrun;
    destruct ((_ ← open_w _ _; _) fs1) as [fs2 [[]|[]]]; unfold io_raise;
    cbn [fst snd] in Hrun |- *; by rewrite Hrun, ?Hf.
Qed.
End storage_outcomes.

(** A save into a directory where an old temporary file lies about. *)
Lemma save_returns_clean_witness :
  files (save (L := RefJson.lib) sample_env sample_storage [task_a]
           (mkFs {[ "/data/tasks.json.tmp" := Text "left behind" ]} {[ "/data" ]})).1
    !! "/data/tasks.json.tmp" = None.
Proof.
  apply (save_returns_clean (L := RefJson.lib) sample_env sample_storage [task_a]
           (mkFs {[ "/data/tasks.json.tmp" := Text "left behind" ]} {[ "/data" ]})).
  by vm_compute.
Defined.

(** The disk fills up after ten characters. *)
Lemma save_failure_litter_witness :
  files (save (L := RefJson.lib) disk_full_env sample_storage [task_a] empty_fs).1
    !! "/data/tasks.json.tmp"
  = Some (Text (substring 0 10 (RefJson.dumps (save_data (now disk_full_env) [task_a])))).
Proof.
  apply (save_failure_litter (L := RefJson.lib) disk_full_env sample_storage [task_a] empty_fs);
    [by vm_compute | by vm_compute |].
  apply (bool_decide_unpack _). by vm_compute.
Defined.


Lemma mapM_Ok_Forall2 {A B : Type} (f : A → result B) (l : list A) (ys : list B) :
  mapM f l = Ok ys ↔ Forall2 (λ x y, f x = Ok y) l ys.
Proof.
  revert ys. induction l as [|x l IH]; intros ys; cbn [mapM].
  - split; [intros [= <-]; constructor | by inversion 1].
  - split.
    + destruct (f x) as [y|ex] eqn:Hx; cbn; [|discriminate].
      destruct (mapM f l) as [ys'|ex] eqn:Hl; cbn; [|discriminate].
      intros [= <-]. constructor; [done|]. by apply IH.
    + inversion 1 as [|? y ? ys' Hx Hl]; subst. rewrite Hx. cbn.
      apply IH in Hl. rewrite Hl. done.
Qed.

Lemma mapM_first_failure {A B : Type} (f : A → result B) (good : list A) (bad : A)
    (rest : list A) (ys : list B) (ex : exn) :
  mapM f good = Ok ys → f bad = Raise ex → mapM f (good ++ bad :: rest) = Raise ex.
Proof.
  revert ys. induction good as [|g good IH]; intros ys Hgood Hbad; cbn [app mapM].
  - by rewrite Hbad.
  - cbn [mapM] in Hgood. destruct (f g); [|discriminate]. cbn in Hgood |- *.
    destruct (mapM f good) eqn:Hg; [|discriminate]. by rewrite (IH _ eq_refl Hbad).
Qed.

Lemma first_with_id_app (ts : list Task) (t : Task) (id_ : string) :
  first_with_id (ts ++ [t]) id_ =
    match first_with_id ts id_ with
    | Some u => Some u
    | None => if String.eqb (id t) id_ then Some t else None
    end.
Proof.
  induction ts as [|u ts IH]; cbn [app first_with_id]; [done|].
  by destruct (String.eqb (id u) id_).
Qed.

Section storage_compose.
Context {L : Lib}.

Lemma add_task_unfold (e : env) (self : Storage) (t : Task) (fs : filesystem) :
  add_task e self t fs
  = match load e fs self with
    | Ok ts => save e self (ts ++ [t]) fs
    | Raise ex => (fs, Raise ex)
    end.
Proof. unfold add_task. rewrite io_bind_unfold. by destruct (load e fs self). Qed.

(** X8.  Given that the JSON codec reads back what it writes, an [add_task]
    that returns on a file whose tasks are [ts] leaves a file whose tasks are
    [ts] followed by the new task: it keeps every task, in order, and adds
    one at the end. *)
Theorem add_task_extends (e e' : env) (self : Storage) (t : Task) (ts : list Task)
    (fs : filesystem) :
  codec_roundtrip L →
  load e fs self = Ok ts →
  forallb storable ts = true → storable t = true →
  (add_task e self t fs).2 = Ok tt →
  rfault e' = ReadOk →
  load e' (add_task e self t fs).1 self = Ok (ts ++ [t]).
Proof.
  intros Hcodec Hload Hts Ht Hok Hr. rewrite add_task_unfold, Hload in Hok |- *.
  pose proof (save_cases e self (ts ++ [t]) fs) as Hc. cbv zeta in Hc.
  destruct Hc as [(msg & _ & Hrun & _)|[[msg [Hraise _]]|[_ [Hfiles _]]]].
  - congruence.
  - congruence.
  - apply (load_saved_text e' _ self (now e) (ts ++ [t])); try done.
    rewrite forallb_app, Hts. cbn. by rewrite Ht.
Qed.

(** X9.  When [Storage.add_task] raises, the backing file is as it was; when
    it is [load] that fails, nothing at all has changed and the error of
    [load] is the one raised, so a file that cannot be read is never
    overwritten. *)
Theorem add_task_failure (e : env) (self : Storage) (t : Task) (fs : filesystem) :
  (∀ ex, (add_task e self t fs).2 = Raise ex →
         files (add_task e self t fs).1 !! path self = files fs !! path self)
  ∧ (∀ ex, load e fs self = Raise ex → add_task e self t fs = (fs, Raise ex)).
Proof.
  rewrite add_task_unfold. destruct (load e fs self) as [ts|ex0]; split; try done.
  - intros ex Hex.
    pose proof (save_cases e self (ts ++ [t]) fs) as Hc. cbv zeta in Hc.
    destruct Hc as [(msg & _ & _ & Hsame)|[[msg [_ Hfiles]]|[Hok _]]].
    + by rewrite Hsame.
    + done.
    + congruence.
  - intros ex [= <-]. done.
Qed.

(** X10.  After an [add_task] that returned, [get_task_by_id] answers as
    before for every id that an earlier task has, and finds the new task
    under its own id when no earlier task has it. *)
Theorem get_task_by_id_after_add (e e' : env) (self : Storage) (t : Task)
    (ts : list Task) (fs : filesystem) (id_ : string) :
  codec_roundtrip L →
  load e fs self = Ok ts →
  forallb storable ts = true → storable t = true →
  (add_task e self t fs).2 = Ok tt →
  rfault e' = ReadOk →
  get_task_by_id e' (add_task e self t fs).1 self id_
  = Ok (match first_with_id ts id_ with
        | Some u => Some u
        | None => if String.eqb (id t) id_ then Some t else None
        end).
Proof.
  intros Hcodec Hload Hts Ht Hok Hr. unfold get_task_by_id.
  rewrite add_task_unfold, Hload in Hok |- *.
  pose proof (save_cases e self (ts ++ [t]) fs) as Hc. cbv zeta in Hc.
  destruct Hc as [(msg & _ & Hrun & _)|[[msg [Hraise _]]|[_ [Hfiles _]]]].
  - congruence.
  - congruence.
  - rewrite (load_saved_text e' _ self (now e) (ts ++ [t])); try done.
    + cbn. by rewrite first_with_id_app.
    + rewrite forallb_app, Hts. cbn. by rewrite Ht.
Qed.

(** X11.  [Storage.load] decodes the records in file order, one task per
    record: it returns [ts] exactly when the records under [tasks] decode,
    each in its place, to the tasks of [ts]. *)
Theorem load_in_file_order (e : env) (fs : filesystem) (self : Storage)
    (s : string) (d : list (string * pyval)) (items : list pyval) (ts : list Task) :
  rfault e = ReadOk →
  files fs !! path self = Some (Text s) →
  json_loads s = inr (PDict d) →
  dict_lookup d "tasks" = Some (PList items) →
  (load e fs self = Ok ts ↔ Forall2 (λ v t, from_dict (now e) v = Ok t) items ts)
  ∧ (load e fs self = Ok ts →
     length ts = length items
     ∧ ∀ i v, items !! i = Some v → ∃ t, ts !! i = Some t ∧ from_dict (now e) v = Ok t).
Proof.
  intros Hr Hf Hs Hd.
  rewrite (load_parsed e fs self s (PDict d)) by done.
  cbv zeta. unfold dict_get_opt, dict_get. rewrite Hd. cbn [py_iter mbind result_bind].
  split; [apply mapM_Ok_Forall2|].
  intros Hok. apply mapM_Ok_Forall2 in Hok. split.
  - symmetry. by eapply Forall2_length.
  - intros i v Hv. destruct (Forall2_lookup_l _ _ _ _ _ Hok Hv) as [t [Ht Hdec]]. eauto.
Qed.

(** X12.  What [Storage.load] does with a [tasks] value that is not a list
    of dicts: a number or a boolean raises TypeError; a list raises
    AttributeError at its first element that is not a dict, when the
    elements before it decode; so does a non-empty str and a non-empty dict,
    whose items are strs; an empty str and an empty dict give the empty
    list. *)
Theorem load_odd_tasks (e : env) (fs : filesystem) (self : Storage)
    (s : string) (d : list (string * pyval)) (v : pyval) :
  rfault e = ReadOk →
  files fs !! path self = Some (Text s) →
  json_loads s = inr (PDict d) →
  dict_lookup d "tasks" = Some v →
  match v with
  | PNone => load e fs self = Raise (StorageError ("unexpected file format in " +:+ path self))
  | PBool _ | PInt _ | PFloat _ => load e fs self = Raise TypeError
  | PStr str => load e fs self = if String.eqb str "" then Ok [] else Raise AttributeError
  | PDict entries => load e fs self = match entries with [] => Ok [] | _ => Raise AttributeError end
  | PList items =>
      ∀ good bad rest ts,
        items = good ++ bad :: rest →
        mapM (from_dict (now e)) good = Ok ts →
        match bad with PDict _ => True | _ => load e fs self = Raise AttributeError end
  end.
Proof.
  intros Hr Hf Hs Hd.
  rewrite (load_parsed e fs self s (PDict d)) by done.
  cbv zeta. unfold dict_get_opt, dict_get. rewrite Hd.
  destruct v as [|b|n|r|str|items|entries]; try done.
  - destruct str as [|c str]; [done|]. cbn. done.
  - intros good bad rest ts -> Hgood. cbn [py_iter mbind result_bind].
    destruct bad; try done; by apply (mapM_first_failure _ good _ rest ts).
  - destruct entries as [|[k x] entries]; [done|]. cbn. done.
Qed.
End storage_compose.



(** A second task added to a file that holds one. *)
Lemma add_task_extends_witness :
  load (L := RefJson.lib) sample_env
    (add_task (L := RefJson.lib) sample_env sample_storage task_b one_task_fs).1
    sample_storage
  = Ok [task_a; task_b].
Proof.
  apply (add_task_extends (L := RefJson.lib) sample_env sample_env sample_storage
           task_b [task_a] one_task_fs RefJsonFacts.lib_roundtrip); by vm_compute.
Defined.

(** The ids [a1] and [b2] after the second task was added. *)
Lemma get_task_by_id_after_add_witness :
  get_task_by_id (L := RefJson.lib) sample_env
    (add_task (L := RefJson.lib) sample_env sample_storage task_b one_task_fs).1
    sample_storage "b2"
  = Ok (Some task_b)
  ∧ get_task_by_id (L := RefJson.lib) sample_env
      (add_task (L := RefJson.lib) sample_env sample_storage task_b one_task_fs).1
      sample_storage "a1"
    = Ok (Some task_a).
Proof.
  split.
  - exact (get_task_by_id_after_add (L := RefJson.lib) sample_env sample_env sample_storage
             task_b [task_a] one_task_fs "b2" RefJsonFacts.lib_roundtrip
             eq_refl eq_refl eq_refl eq_refl eq_refl).
  - exact (get_task_by_id_after_add (L := RefJson.lib) sample_env sample_env sample_storage
             task_b [task_a] one_task_fs "a1" RefJsonFacts.lib_roundtrip
             eq_refl eq_refl eq_refl eq_refl eq_refl).
Defined.

(** The file with one task. *)
Lemma load_in_file_order_witness :
  load (L := RefJson.lib) sample_env one_task_fs sample_storage = Ok [task_a].
Proof.
  destruct (load_in_file_order (L := RefJson.lib) sample_env one_task_fs sample_storage
              (RefJson.dumps (save_data "2026-11-03T09:00:00+00:00" [task_a]))
              [("version", PStr "1.0"); ("updated", PStr "2026-11-03T09:00:00+00:00");
               ("tasks", PList [to_dict task_a])]
              [to_dict task_a] [task_a]) as [[_ Hback] _];
    [reflexivity | by vm_compute | by vm_compute | reflexivity |].
  apply Hback. repeat constructor.
Defined.

(** A file with the number 5 under [tasks]. *)
Lemma load_odd_tasks_witness :
  load (L := RefJson.lib) sample_env (fs_with number_tasks_text) sample_storage
  = Raise TypeError.
Proof.
  exact (load_odd_tasks (L := RefJson.lib) sample_env (fs_with number_tasks_text)
           sample_storage number_tasks_text [("tasks", PInt 5)] (PInt 5)
           eq_refl eq_refl eq_refl eq_refl).
Defined.



(** ** Builtins that the commands use *)

Lemma contains_char_app (c : ascii) (a b : string) :
  contains_char c (a +:+ b) = contains_char c a || contains_char c b.
Proof.
  induction a as [|x a IH]; [done|].
  rewrite append_cons. cbn [contains_char]. by rewrite IH, orb_assoc.
Qed.

Lemma split_on_no_sep (sep : ascii) (s : string) :
  Forall (λ x, contains_char sep x = false) (split_on sep s).
Proof.
  induction s as [|c s IH]; cbn [split_on]; [by repeat constructor|].
  destruct (Ascii.eqb c sep) eqn:Hc; [by constructor|].
  destruct (split_on sep s) as [|x xs]; [repeat constructor|].
  - cbn. rewrite Ascii.eqb_sym, Hc. done.
  - apply Forall_cons in IH as [Hx Hxs]. constructor; [|done].
    cbn [contains_char]. by rewrite Ascii.eqb_sym, Hc, Hx.
Qed.

Lemma split_on_single (sep : ascii) (x : string) :
  contains_char sep x = false → split_on sep x = [x].
Proof.
  induction x as [|c x IH]; [done|]. cbn [contains_char split_on].
  intros H. apply orb_false_iff in H as [Hc Hx].
  rewrite Ascii.eqb_sym, Hc, (IH Hx). done.
Qed.

Lemma split_on_piece (sep : ascii) (x r : string) :
  contains_char sep x = false →
  split_on sep (x +:+ String sep r) = x :: split_on sep r.
Proof.
  induction x as [|c x IH]; intros H.
  - rewrite append_nil. cbn [split_on]. by rewrite Ascii.eqb_refl.
  - cbn [contains_char] in H. apply orb_false_iff in H as [Hc Hx].
    rewrite append_cons. cbn [split_on]. rewrite Ascii.eqb_sym, Hc, (IH Hx). done.
Qed.

Lemma split_on_join (l : list string) :
  l ≠ [] →
  Forall (λ x, contains_char ","%char x = false) l →
  split_on ","%char (join "," l) = l.
Proof.
  induction l as [|x l IH]; [done|]. intros _ Hall.
  apply Forall_cons in Hall as [Hx Hl].
  destruct l as [|y l].
  - cbn [join]. by apply split_on_single.
  - change (join "," (x :: y :: l)) with (x +:+ String ","%char (join "," (y :: l))).
    rewrite split_on_piece by done. by rewrite IH.
Qed.

(** ** commands/add.py *)

Lemma clean_tag_spec (t : string) :
  clean_tag t = true ↔
  t ≠ "" ∧ starts_with_space t = false ∧ ends_with_space t = false
  ∧ contains_char ","%char t = false.
Proof.
  unfold clean_tag. rewrite !andb_true_iff, !negb_true_iff.
  rewrite <- (not_true_iff_false (String.eqb t "")), String.eqb_eq. tauto.
Qed.

(** X13.  Every tag that the add command takes from its [--tags] argument
    is clean: it is not empty, has no white space at either end and holds no
    comma. *)
Theorem split_tags_clean (s : string) :
  Forall (λ t, clean_tag t = true) (add_cmd.split_tags s).
Proof.
  unfold add_cmd.split_tags. destruct (String.eqb s ""); [constructor|].
  apply Forall_forall. intros t Ht. apply list_elem_of_In, filter_In in Ht as [Ht Hne].
  apply in_map_iff in Ht as [x [<- Hx]].
  apply clean_tag_spec. destruct (strip_ends x) as [H1 H2].
  repeat split; try done.
  - apply negb_true_iff, not_true_iff_false in Hne. by rewrite String.eqb_eq in Hne.
  - apply list_elem_of_In in Hx.
    pose proof (split_on_no_sep ","%char s) as Hsep.
    rewrite Forall_forall in Hsep. specialize (Hsep x Hx).
    destruct (strip_split x) as [l [r [Hsplit _]]].
    rewrite Hsplit, !contains_char_app in Hsep.
    apply orb_false_iff in Hsep as [_ Hsep]. by apply orb_false_iff in Hsep as [Hsep _].
Qed.

Lemma strip_clean (t : string) : clean_tag t = true → strip t = t.
Proof.
  intros Ht. apply clean_tag_spec in Ht as [_ [H1 [H2 _]]].
  unfold strip. by rewrite (lstrip_trimmed _ H1), (rstrip_trimmed _ H2).
Qed.

(** X14.  Clean tags joined with commas are split into the same tags again:
    what the add command stored can be given back to it as [--tags]. *)
Theorem split_tags_join (l : list string) :
  Forall (λ t, clean_tag t = true) l →
  add_cmd.split_tags (join "," l) = l.
Proof.
  intros Hl. unfold add_cmd.split_tags.
  destruct l as [|x l]; [done|].
  assert (Hne : String.eqb (join "," (x :: l)) "" = false).
  { apply Forall_cons in Hl as [Hx _]. apply clean_tag_spec in Hx as [Hx _].
    apply not_true_iff_false. rewrite String.eqb_eq.
    destruct l as [|y l]; cbn [join]; [done|].
    destruct x as [|c x]; [done|]. rewrite append_cons. discriminate. }
  assert (Hsep : Forall (λ t, contains_char ","%char t = false) (x :: l)).
  { eapply Forall_impl; [exact Hl|]. intros t Ht. cbv beta in Ht.
    by apply clean_tag_spec in Ht as [_ [_ [_ Ht]]]. }
  rewrite Hne, (split_on_join (x :: l)) by done.
  clear Hne Hsep. induction Hl as [|t ts Ht _ IH]; [done|].
  cbn [map List.filter]. rewrite (strip_clean t Ht).
  apply clean_tag_spec in Ht as [Hne _].
  apply String.eqb_neq in Hne. rewrite Hne. cbn [negb]. by f_equal.
Qed.

Lemma prog_bind_unfold {A B : Type} (m : prog A) (k : A → prog B) (w : world) :
  (m ≫= k) w
  = match m w with
    | (w', Ok a) => k a w'
    | (w', Raise e) => (w', Raise e)
    end.
Proof. reflexivity. Qed.

Lemma prints_then_nil (e : env) (code : Z) (w : world) :
  prints_then e [] code w = (w, Ok code).
Proof. by destruct w. Qed.

Lemma prints_then_cons (e : env) (line : string) (rest : list string) (code : Z)
    (w : world) :
  prints_then e (line :: rest) code w
  = match pfault e (stdout w) line with
    | Some exc => (w, Raise exc)
    | None => prints_then e rest code (mkWorld (disk w) (stdout w ++ [line]))
    end.
Proof.
  unfold prints_then. cbn [print_lines]. destruct (pfault e (stdout w) line); [|done].
  by destruct w.
Qed.

(** A [print] followed by what prints the other lines. *)
Lemma print_then (e : env) (line : string) (rest : list string) (code : Z)
    (k : prog Z) (w : world) :
  (∀ w', k w' = prints_then e rest code w') →
  match print e line w with
  | (w', Ok _) => k w'
  | (w', Raise exc) => (w', Raise exc)
  end = prints_then e (line :: rest) code w.
Proof.
  intros Hk. rewrite prints_then_cons. unfold print.
  destruct (pfault e (stdout w) line); [done|]. apply Hk.
Qed.

(** A loop of [print]s followed by what prints the other lines. *)
Lemma for_each_print_then {A : Type} (e : env) (f : A → string) (l : list A)
    (rest : list string) (code : Z) (k : prog Z) (w : world) :
  (∀ w', k w' = prints_then e rest code w') →
  match for_each l (λ x, print e (f x)) w with
  | (w', Ok _) => k w'
  | (w', Raise exc) => (w', Raise exc)
  end = prints_then e (map f l ++ rest) code w.
Proof.
  intros Hk. revert w. induction l as [|x l IH]; intros w; cbn [for_each map app].
  - apply Hk.
  - rewrite prog_bind_unfold, prints_then_cons. unfold print at 1.
    destruct (pfault e (stdout w) (f x)); [done|]. apply IH.
Qed.

(** On a console that takes every line, all the lines are printed. *)
Lemma prints_then_accepted (e : env) (lines : list string) (code : Z) (w : world) :
  (∀ out line, pfault e out line = None) →
  prints_then e lines code w = (mkWorld (disk w) (stdout w ++ lines), Ok code).
Proof.
  intros Hacc. revert w. induction lines as [|line rest IH]; intros w.
  - rewrite prints_then_nil, app_nil_r. by destruct w.
  - rewrite prints_then_cons, Hacc, IH. cbn [disk stdout]. by rewrite <- app_assoc.
Qed.

(** What [prints_then] raises, [print] raised. *)
Lemma prints_then_raise (e : env) (lines : list string) (code : Z) (w : world) (exc : exn) :
  (prints_then e lines code w).2 = Raise exc → ∃ out line, pfault e out line = Some exc.
Proof.
  revert w. induction lines as [|line rest IH]; intros w.
  - by rewrite prints_then_nil.
  - rewrite prints_then_cons. destruct (pfault e (stdout w) line) as [exc'|] eqn:Hp.
    + intros [= <-]. eauto.
    + apply IH.
Qed.

Lemma prints_then_disk (e : env) (lines : list string) (code : Z) (w : world) :
  disk (prints_then e lines code w).1 = disk w.
Proof. unfold prints_then. by destruct (print_lines e lines (stdout w)) as [out [exc|]]. Qed.

Lemma prints_then_code (e : env) (lines : list string) (code code' : Z) (w : world) :
  (prints_then e lines code w).2 = Ok code' → code' = code.
Proof.
  unfold prints_then. destruct (print_lines e lines (stdout w)) as [out [exc|]]; [done|].
  by intros [= <-].
Qed.

Lemma blank_test (d : string) :
  String.eqb d "" || String.eqb (strip d) "" = all_space d.
Proof.
  destruct (all_space d) eqn:Hd.
  - apply strip_empty in Hd. rewrite Hd. apply orb_true_r.
  - apply orb_false_iff. split; apply String.eqb_neq; intros Heq.
    + subst d. discriminate.
    + apply strip_empty in Heq. congruence.
Qed.

Lemma create_cases (u n d : string) (tags_ : option (list pyval)) (id_ created_ : option string) :
  create u n d tags_ id_ created_ =
    if all_space d then Raise (ValueError "description must be non-empty")
    else Ok (mkTask (match id_ with Some i => i | None => u end) (strip d)
               (match created_ with Some c => c | None => n end) false
               (match tags_ with Some ((_ :: _) as l) => l | Some [] | None => [] end)).
Proof. unfold create. by rewrite blank_test. Qed.

Lemma storable_str_tags (i d c : string) (b : bool) (l : list string) :
  storable (mkTask i d c b (map PStr l)) = true.
Proof. unfold storable. cbn [tags]. by induction l. Qed.

(** [str] writes the dict of a task whose tags are strs. *)
Lemma py_str_to_dict (i d c : string) (b : bool) (l : list string) :
  ∃ line, py_str (to_dict (mkTask i d c b (map PStr l))) = Ok line.
Proof.
  assert (Hw : writable (to_dict (mkTask i d c b (map PStr l))) = true).
  { unfold to_dict. cbn [writable forallb snd id description created completed tags].
    rewrite andb_true_r. induction l as [|x l IH]; [done|]. exact IH. }
  pose proof (py_str_cases (to_dict (mkTask i d c b (map PStr l)))) as Hs.
  by rewrite Hw in Hs.
Qed.

Section add_run_facts.
Context {L : Lib} {T : Texts}.

(** When [add_task] raises, the backing file is as it was. *)
Lemma add_task_raise_untouched (e : env) (self : Storage) (t : Task) (fs : filesystem) ex :
  (add_task e self t fs).2 = Raise ex →
  files (add_task e self t fs).1 !! path self = files fs !! path self.
Proof.
  rewrite add_task_unfold. destruct (load e fs self) as [ts|ex0]; [|done].
  intros Hex. pose proof (save_cases e self (ts ++ [t]) fs) as Hc. cbv zeta in Hc.
  destruct Hc as [(msg & _ & _ & Hsame)|[[msg [_ Hfiles]]|[Hok _]]].
  - by rewrite Hsame.
  - done.
  - congruence.
Qed.

(** The four ways in which the add command ends. *)
Lemma add_run_unfold (e : env) (args : add_cmd.Args) (ctx : Ctx) (w : world) :
  let task :=
    mkTask (match add_cmd.arg_id args with Some i => i | None => uuid_hex e end)
           (strip (add_cmd.arg_description args)) (now e) false
           (map PStr (add_cmd.split_tags (add_cmd.arg_tags args))) in
  ∃ line,
  py_str (to_dict task) = Ok line ∧
  add_cmd.run e args ctx w
  = if all_space (add_cmd.arg_description args) then
      prints_then e ["Invalid input: description must be non-empty"] 2 w
    else if flag (add_cmd.arg_dry_run args) then
      prints_then e [dry_run_banner; line] 0 w
    else
      match add_task e (storage ctx) task (disk w) with
      | (fs', Ok _) =>
          prints_then e ["Added task " +:+ id task +:+ ": " +:+ description task] 0
            (mkWorld fs' (stdout w))
      | (fs', Raise exc) =>
          prints_then e ["Could not save task: " +:+ exc_str exc] 3 (mkWorld fs' (stdout w))
      end.
Proof.
  intros task. unfold add_cmd.run. rewrite create_cases.
  set (given := map PStr (add_cmd.split_tags (add_cmd.arg_tags args))) in *.
  replace (match given with [] => [] | _ :: _ => given end) with given
    by (by destruct given).
  fold task.
  destruct (py_str_to_dict (id task) (description task) (created task) false
              (add_cmd.split_tags (add_cmd.arg_tags args))) as [line Hline].
  change (py_str (to_dict task) = Ok line) in Hline. exists line. split; [done|].
  destruct (all_space (add_cmd.arg_description args)) eqn:Hd.
  { rewrite prog_bind_unfold. apply print_then. intros w'. by rewrite prints_then_nil. }
  destruct (flag (add_cmd.arg_dry_run args)) eqn:Hdry.
  { rewrite prog_bind_unfold. apply print_then. intros w1.
    rewrite prog_bind_unfold, Hline. cbv beta iota. rewrite prog_bind_unfold.
    apply print_then. intros w2.
    by rewrite prints_then_nil. }
  rewrite prog_bind_unfold. unfold attempt, on_disk. cbn [disk stdout].
  destruct (add_task e (storage ctx) task (disk w)) as [fs' [[]|ex]]; cbv beta iota;
    rewrite prog_bind_unfold; apply print_then; intros w'; by rewrite prints_then_nil.
Qed.

(** X15.  The add command ends in one of four ways.  On a blank description
    it prints the complaint of [Task.create] and ends with exit code 2.  On
    a dry run it prints the banner and the dict of the task and ends with
    exit code 0.  In both cases the disk is not touched.  Otherwise it calls
    [add_task] for the task that [Task.create] made: when that returns it
    prints the line of the added task and ends with exit code 0; when that
    raises it prints the line of the failure and ends with exit code 3, and
    the tasks file is as it was.  The command raises only what [print]
    raises at a line that the console refuses; the lines before that one are
    printed. *)
Theorem add_run_exit_codes (e : env) (args : add_cmd.Args) (ctx : Ctx) (w : world) :
  let task :=
    mkTask (match add_cmd.arg_id args with Some i => i | None => uuid_hex e end)
           (strip (add_cmd.arg_description args)) (now e) false
           (map PStr (add_cmd.split_tags (add_cmd.arg_tags args))) in
  if all_space (add_cmd.arg_description args) then
    add_cmd.run e args ctx w
    = prints_then e ["Invalid input: description must be non-empty"] 2 w
  else if flag (add_cmd.arg_dry_run args) then
    ∃ line, py_str (to_dict task) = Ok line
            ∧ add_cmd.run e args ctx w = prints_then e [dry_run_banner; line] 0 w
  else
    match add_task e (storage ctx) task (disk w) with
    | (fs', Ok _) =>
        add_cmd.run e args ctx w
        = prints_then e ["Added task " +:+ id task +:+ ": " +:+ description task] 0
            (mkWorld fs' (stdout w))
    | (fs', Raise exc) =>
        add_cmd.run e args ctx w
        = prints_then e ["Could not save task: " +:+ exc_str exc] 3 (mkWorld fs' (stdout w))
        ∧ files fs' !! path (storage ctx) = files (disk w) !! path (storage ctx)
    end.
Proof.
  intros task. pose proof (add_run_unfold e args ctx w) as Hrun. cbv zeta in Hrun.
  fold task in Hrun. destruct Hrun as (line & Hline & Hrun).
  destruct (all_space (add_cmd.arg_description args)); [done|].
  destruct (flag (add_cmd.arg_dry_run args)); [eauto|].
  pose proof (add_task_raise_untouched e (storage ctx) task (disk w)) as Hraise.
  destruct (add_task e (storage ctx) task (disk w)) as [fs' [[]|ex]]; [done|].
  split; [done|]. by apply (Hraise ex).
Qed.

(** X16.  Given that the JSON codec reads back what it writes: when the add
    command ends with exit code 0 and it was no dry run, the tasks file holds
    the tasks it held before followed by the new task, whose description is
    the stripped argument, whose tags are the split [--tags] argument, whose
    id is the [--id] argument or else a fresh one, and which is not
    completed. *)
Theorem add_run_stores (e e' : env) (args : add_cmd.Args) (ctx : Ctx) (w : world)
    (ts : list Task) :
  codec_roundtrip L →
  load e (disk w) (storage ctx) = Ok ts →
  forallb storable ts = true →
  flag (add_cmd.arg_dry_run args) = false →
  (add_cmd.run e args ctx w).2 = Ok 0%Z →
  rfault e' = ReadOk →
  load e' (disk (add_cmd.run e args ctx w).1) (storage ctx)
  = Ok (ts ++ [mkTask (match add_cmd.arg_id args with Some i => i | None => uuid_hex e end)
                      (strip (add_cmd.arg_description args)) (now e) false
                      (map PStr (add_cmd.split_tags (add_cmd.arg_tags args)))]).
Proof.
  intros Hcodec Hload Hts Hdry.
  pose proof (add_run_unfold e args ctx w) as Hrun. cbv zeta in Hrun.
  destruct Hrun as (line & _ & ->). rewrite Hdry.
  destruct (all_space (add_cmd.arg_description args)) eqn:Hd.
  { intros Hc. by apply prints_then_code in Hc. }
  match goal with |- context [add_task e (storage ctx) ?t] => set (task := t) end.
  rewrite add_task_unfold, Hload.
  pose proof (save_cases e (storage ctx) (ts ++ [task]) (disk w)) as Hc. cbv zeta in Hc.
  destruct (save e (storage ctx) (ts ++ [task]) (disk w)) as [fs' [[]|ex]].
  2: { intros Hcode. by apply prints_then_code in Hcode. }
  intros _ Hr. rewrite prints_then_disk. cbn [disk fst snd] in Hc |- *.
  destruct Hc as [(msg & _ & Hrun & _)|[[msg [Hraise _]]|[_ [Hfiles _]]]]; try discriminate.
  apply (load_saved_text e' _ (storage ctx) (now e) (ts ++ [task])); try done.
  rewrite forallb_app, Hts. cbn [forallb]. subst task.
  by rewrite storable_str_tags.
Qed.
End add_run_facts.



(** The tags [home] and [urgent]. *)
Lemma split_tags_join_witness :
  add_cmd.split_tags (join "," ["home"; "urgent"]) = ["home"; "urgent"].
Proof. apply split_tags_join. by repeat constructor. Defined.

(** The add command of the test suite, on a file that holds one task. *)
Lemma add_run_stores_witness :
  load (L := RefJson.lib) sample_env
    (disk (add_cmd.run (L := RefJson.lib) (T := sample_texts) sample_env
             (add_cmd.mkArgs " My task " "home, urgent" None (Some false)) sample_ctx
             (mkWorld one_task_fs [])).1)
    sample_storage
  = Ok [task_a;
        mkTask "3f2a9c0e5b7d4d1e8a6f0c1b2d3e4f50" "My task" "2026-11-03T10:00:00+00:00"
               false [PStr "home"; PStr "urgent"]].
Proof.
  exact (add_run_stores (L := RefJson.lib) (T := sample_texts) sample_env sample_env
           (add_cmd.mkArgs " My task " "home, urgent" None (Some false)) sample_ctx
           (mkWorld one_task_fs []) [task_a] RefJsonFacts.lib_roundtrip
           eq_refl eq_refl eq_refl eq_refl eq_refl).
Defined.


(** ** commands/list.py *)

Lemma filter_elem_of {A : Type} (p : A → bool) (l : list A) (x : A) :
  x ∈ List.filter p l ↔ x ∈ l ∧ p x = true.
Proof. rewrite !list_elem_of_In. apply filter_In. Qed.

Lemma filter_sublist {A : Type} (p : A → bool) (l : list A) :
  sublist (List.filter p l) l.
Proof.
  induction l as [|x l IH]; cbn [List.filter]; [constructor|].
  destruct (p x); by constructor.
Qed.

Lemma filter_split_length {A : Type} (p : A → bool) (l : list A) :
  length l = length (List.filter p l) + length (List.filter (λ x, negb (p x)) l).
Proof.
  induction l as [|x l IH]; cbn [List.filter length]; [done|].
  destruct (p x); cbn [negb length]; lia.
Qed.

(** X17.  [_filter_tasks] keeps the tasks, in their order, that carry the
    tag (when a non-empty tag is given) and whose completed flag is the one
    asked for (when one is asked for); it keeps nothing else, and an empty
    tag filters nothing. *)
Theorem filter_tasks_spec (ts : list Task) (tag : option string) (co : option bool) :
  (∀ t, t ∈ list_cmd._filter_tasks ts tag co ↔
        t ∈ ts
        ∧ match tag with
          | Some (String _ _ as tg) => str_in tg (tags t) = true
          | Some EmptyString | None => True
          end
        ∧ match co with
          | Some b => completed t = b
          | None => True
          end)
  ∧ sublist (list_cmd._filter_tasks ts tag co) ts.
Proof.
  unfold list_cmd._filter_tasks. cbv zeta. split.
  - intros t.
    destruct tag as [[|c tg]|], co as [[]|];
      rewrite ?filter_elem_of; try tauto.
    all: destruct (completed t); cbn [negb]; intuition congruence.
  - destruct tag as [[|c tg]|], co as [[]|];
      repeat (try reflexivity; try apply filter_sublist;
              try (etrans; [apply filter_sublist|])).
Qed.

(** X18.  With the same tag, the completed and the incomplete listing
    together have as many tasks as the listing without a completion
    filter. *)
Theorem filter_tasks_partition (ts : list Task) (tag : option string) :
  length (list_cmd._filter_tasks ts tag None)
  = length (list_cmd._filter_tasks ts tag (Some true))
    + length (list_cmd._filter_tasks ts tag (Some false)).
Proof.
  unfold list_cmd._filter_tasks. cbv zeta.
  destruct tag as [[|c tg]|]; apply filter_split_length.
Qed.

Section list_run_facts.
Context {L : Lib} {T : Texts}.

(** The two ways in which the list command ends. *)
Lemma list_run_unfold (e : env) (args : list_cmd.Args) (ctx : Ctx) (w : world) :
  list_cmd.run e args ctx w
  = match load e (disk w) (storage ctx) with
    | Raise exc => prints_then e ["Could not load tasks: " +:+ exc_str exc] 3 w
    | Ok ts =>
        let shown :=
          list_cmd._filter_tasks ts (list_cmd.arg_tag args)
            (if flag (list_cmd.arg_incomplete args) then Some false
             else if flag (list_cmd.arg_completed args) then Some true
             else None) in
        prints_then e
          (if flag (list_cmd.arg_json args)
           then [json_dumps (PList (map to_dict shown))]
           else "ID  CREATED               C  DESCRIPTION" :: map list_cmd.row shown)
          0 w
    end.
Proof.
  unfold list_cmd.run. rewrite prog_bind_unfold. unfold attempt, on_disk.
  destruct (load e (disk w) (storage ctx)) as [ts|exc]; cbv beta iota zeta.
  - replace (mkWorld (disk w) (stdout w)) with w by (by destruct w).
    destruct (flag (list_cmd.arg_json args)); rewrite prog_bind_unfold.
    + apply print_then. intros w'. by rewrite prints_then_nil.
    + apply print_then. intros w'. rewrite prog_bind_unfold.
      rewrite <- (app_nil_r (map list_cmd.row _)).
      apply for_each_print_then. intros w''. by rewrite prints_then_nil.
  - replace (mkWorld (disk w) (stdout w)) with w by (by destruct w).
    rewrite prog_bind_unfold. apply print_then. intros w'. by rewrite prints_then_nil.
Qed.

(** X19.  The list command never changes the disk.  When [load] fails it
    prints one line and ends with exit code 3.  Otherwise it prints, for the
    tasks that pass the filters, in file order, either their JSON text or the
    header and one row each, and ends with exit code 0; when both
    [--completed] and [--incomplete] are given, the incomplete tasks are
    listed.  The command raises only what [print] raises at a line that the
    console refuses; the lines before that one are printed.  On a console
    that takes every line it does not raise. *)
Theorem list_run_outcome (e : env) (args : list_cmd.Args) (ctx : Ctx) (w : world) :
  match load e (disk w) (storage ctx) with
  | Raise exc =>
      list_cmd.run e args ctx w
      = prints_then e ["Could not load tasks: " +:+ exc_str exc] 3 w
  | Ok ts =>
      let shown :=
        list_cmd._filter_tasks ts (list_cmd.arg_tag args)
          (if flag (list_cmd.arg_incomplete args) then Some false
           else if flag (list_cmd.arg_completed args) then Some true
           else None) in
      list_cmd.run e args ctx w
      = prints_then e
          (if flag (list_cmd.arg_json args)
           then [json_dumps (PList (map to_dict shown))]
           else "ID  CREATED               C  DESCRIPTION" :: map list_cmd.row shown)
          0 w
  end
  ∧ disk (list_cmd.run e args ctx w).1 = disk w
  ∧ ((∀ out line, pfault e out line = None) →
     ∃ lines code, list_cmd.run e args ctx w
                   = (mkWorld (disk w) (stdout w ++ lines), Ok code)).
Proof.
  rewrite list_run_unfold.
  destruct (load e (disk w) (storage ctx)) as [ts|exc]; cbv zeta;
    (split_and!; [done|apply prints_then_disk|]);
    intros Hacc; rewrite prints_then_accepted by done; eauto.
Qed.
End list_run_facts.



(** ** commands/search.py *)

Lemma prefix_spec (q hay : string) :
  String.prefix q hay = true ↔ ∃ c, hay = q +:+ c.
Proof.
  revert q. induction hay as [|y hay IH]; intros [|x q]; cbn [String.prefix].
  - split; [intros _; by exists "" | done].
  - split; [done|]. intros [c Hc]. by rewrite append_cons in Hc.
  - split; [intros _; by exists (String y hay) | done].
  - destruct (ascii_dec x y) as [->|Hne].
    + rewrite IH. split; intros [c Hc]; exists c.
      * by rewrite append_cons, Hc.
      * rewrite append_cons in Hc. by injection Hc.
    + split; [done|]. intros [c Hc]. rewrite append_cons in Hc. congruence.
Qed.

Lemma str_contains_spec (hay q : string) :
  str_contains hay q = true ↔ ∃ a c, hay = a +:+ q +:+ c.
Proof.
  induction hay as [|y hay IH]; cbn [str_contains].
  - rewrite orb_false_r, prefix_spec. split.
    + intros [c Hc]. by exists "", c.
    + intros [a [c Hc]]. destruct a as [|x a]; [by exists c|].
      by rewrite append_cons in Hc.
  - rewrite orb_true_iff, prefix_spec, IH. split.
    + intros [[c Hc]|[a [c Hc]]]; [by exists "", c|].
      exists (String y a), c. by rewrite append_cons, Hc.
    + intros [a [c Hc]]. destruct a as [|x a]; [left; by exists c|].
      right. rewrite append_cons in Hc. injection Hc as _ Hc. by exists a, c.
Qed.

Lemma str_in_spec (q : string) (l : list pyval) :
  str_in q l = true ↔ PStr q ∈ l.
Proof.
  unfold str_in. rewrite existsb_exists. split.
  - intros [v [Hv Heq]]. destruct v; try discriminate.
    apply String.eqb_eq in Heq as ->. by apply list_elem_of_In.
  - intros Hq. exists (PStr q). split; [by apply list_elem_of_In|]. apply String.eqb_refl.
Qed.

Lemma mapM_py_lower (l : list pyval) :
  if forallb is_str l
  then mapM py_lower l
       = Ok (map (λ v, match v with PStr s => PStr (lower s) | _ => v end) l)
  else mapM py_lower l = Raise AttributeError.
Proof.
  induction l as [|v l IH]; [done|]. cbn [forallb mapM].
  destruct v; cbn; try done.
  destruct (forallb is_str l); by rewrite IH.
Qed.

(** X20.  A search by description finds a task exactly when the query
    occurs somewhere in its description, both lowered first when case is
    ignored; it never raises, and the empty query finds every task. *)
Theorem matches_description (t : Task) (q : string) (ignore_case : bool) :
  let hay := if ignore_case then lower (description t) else description t in
  let needle := if ignore_case then lower q else q in
  ∃ b, search_cmd._matches t q "description" ignore_case = Ok b
       ∧ (b = true ↔ ∃ before after, hay = before +:+ needle +:+ after)
       ∧ search_cmd._matches t "" "description" ignore_case = Ok true.
Proof.
  intros hay needle. unfold search_cmd._matches. cbn [String.eqb Ascii.eqb Bool.eqb].
  exists (str_contains hay needle). split; [done|]. split.
  - apply str_contains_spec.
  - destruct ignore_case; cbn [lower]; f_equal; apply str_contains_spec;
      eexists "", _; reflexivity.
Qed.

(** X21.  A search by tags compares the query with whole tags.  Without
    [--ignore-case] it finds a task exactly when the query is one of its
    tags, whatever else the tags hold.  With it, a task all of whose tags are
    strs is found exactly when one of them equals the query up to case, and a
    task with a tag that is no str raises [AttributeError]. *)
Theorem matches_tags (t : Task) (q : string) :
  (∃ b, search_cmd._matches t q "tags" false = Ok b ∧ (b = true ↔ PStr q ∈ tags t))
  ∧ (if forallb is_str (tags t)
     then ∃ b, search_cmd._matches t q "tags" true = Ok b
               ∧ (b = true ↔ ∃ s, PStr s ∈ tags t ∧ lower s = lower q)
     else search_cmd._matches t q "tags" true = Raise AttributeError).
Proof.
  unfold search_cmd._matches. cbn [String.eqb Ascii.eqb Bool.eqb]. split.
  - eexists. split; [reflexivity|]. apply str_in_spec.
  - pose proof (mapM_py_lower (tags t)) as Hl.
    destruct (forallb is_str (tags t)) eqn:Hs; rewrite Hl; [|done].
    eexists. split; [reflexivity|]. rewrite str_in_spec, list_elem_of_fmap. split.
    + intros [v [Hv Hin]]. destruct v; try discriminate.
      injection Hv as Hv. eauto.
    + intros [s [Hin Hs']]. exists (PStr s). by rewrite Hs'.
Qed.

(** X22.  For a task whose tags are strs, ignoring case only adds matches
    to a search by tags: when the query is one of the tags, the lowered
    query is one of the lowered tags, whatever [str.lower] does to a text.
    (A search by description has no such property: what [str.lower] makes
    of a letter can depend on the letters around it.) *)
Theorem ignore_case_adds (t : Task) (q : string) :
  forallb is_str (tags t) = true →
  search_cmd._matches t q "tags" false = Ok true →
  search_cmd._matches t q "tags" true = Ok true.
Proof.
  intros Hs. unfold search_cmd._matches. cbn [String.eqb Ascii.eqb Bool.eqb].
  pose proof (mapM_py_lower (tags t)) as Hl. rewrite Hs in Hl. rewrite Hl.
  cbn. intros [= H]. f_equal. apply str_in_spec. apply str_in_spec in H.
  apply list_elem_of_fmap. by exists (PStr q).
Qed.

Lemma ignore_case_adds_witness :
  search_cmd._matches task_b "urgent" "tags" true = Ok true.
Proof. exact (ignore_case_adds task_b "urgent" eq_refl eq_refl). Defined.

Lemma filterM_total {A : Type} (f : A → result bool) (p : A → bool) (l : list A) :
  (∀ x, f x = Ok (p x)) → filterM f l = Ok (List.filter p l).
Proof.
  intros Hf. induction l as [|x l IH]; [done|]. cbn [filterM List.filter].
  rewrite Hf, IH. by destruct (p x).
Qed.

Lemma filterM_raises {A : Type} (f : A → result bool) (ex : exn) (l : list A) :
  (∀ x r, f x = r → r = Raise ex ∨ ∃ b, r = Ok b) →
  Exists (λ x, f x = Raise ex) l → filterM f l = Raise ex.
Proof.
  intros Hf. induction 1 as [x l Hx|x l _ IH]; cbn [filterM].
  - by rewrite Hx.
  - rewrite IH. destruct (Hf x _ eq_refl) as [->|[b ->]]; done.
Qed.

Lemma filterM_raise_inv {A : Type} (f : A → result bool) (ex : exn) (l : list A) :
  filterM f l = Raise ex → Exists (λ x, f x = Raise ex) l.
Proof.
  induction l as [|x l IH]; [done|]. cbn [filterM].
  destruct (f x) as [b|ex'] eqn:Hx.
  - destruct (filterM f l) as [rest|ex'']; [done|]. intros [= ->].
    apply Exists_cons_tl. by apply IH.
  - intros [= ->]. by apply Exists_cons_hd.
Qed.

Lemma matches_raise_inv (t : Task) (q field : string) (ignore_case : bool) (ex : exn) :
  search_cmd._matches t q field ignore_case = Raise ex →
  field = "tags" ∧ ignore_case = true ∧ ex = AttributeError
  ∧ forallb is_str (tags t) = false.
Proof.
  unfold search_cmd._matches. destruct (String.eqb field "description"); [done|].
  destruct (String.eqb_spec field "tags") as [->|]; [|done].
  destruct ignore_case; [|done].
  pose proof (mapM_py_lower (tags t)) as Hm.
  destruct (forallb is_str (tags t)); rewrite Hm; [done|]. by intros [= <-].
Qed.

Section search_run_facts.
Context {L : Lib} {T : Texts}.

(** The three ways in which the search command ends. *)
Lemma search_run_unfold (e : env) (args : search_cmd.Args) (ctx : Ctx) (w : world) :
  search_cmd.run e args ctx w
  = match load e (disk w) (storage ctx) with
    | Raise exc => prints_then e ["Could not load tasks: " +:+ exc_str exc] 3 w
    | Ok ts =>
        match filterM (λ t, search_cmd._matches t (search_cmd.arg_query args)
                              (search_cmd.arg_field args)
                              (flag (search_cmd.arg_ignore_case args))) ts with
        | Raise exc => (w, Raise exc)
        | Ok found =>
            prints_then e
              (if flag (search_cmd.arg_json args)
               then [json_dumps (PList (map to_dict found))]
               else map (λ t, substring 0 8 (id t) +:+ ": " +:+ description t) found)
              0 w
        end
    end.
Proof.
  unfold search_cmd.run. rewrite prog_bind_unfold. unfold attempt, on_disk.
  replace (mkWorld (disk w) (stdout w)) with w by (by destruct w).
  destruct (load e (disk w) (storage ctx)) as [ts|exc]; cbv beta iota zeta.
  - rewrite prog_bind_unfold.
    destruct (filterM _ ts) as [found|exc]; cbv beta iota; [|done].
    destruct (flag (search_cmd.arg_json args)); rewrite prog_bind_unfold.
    + apply print_then. intros w'. by rewrite prints_then_nil.
    + rewrite <- (app_nil_r (map _ found)).
      apply for_each_print_then. intros w'. by rewrite prints_then_nil.
  - rewrite prog_bind_unfold. apply print_then. intros w'. by rewrite prints_then_nil.
Qed.

(** X23.  A search by description, which is the default field, never
    changes the disk.  When [load] fails it prints one line and ends with
    exit code 3.  Otherwise it prints, for exactly the tasks whose
    description contains the query, in file order, either their JSON text or
    one line each with the first eight characters of the id, and ends with
    exit code 0.  The command raises only what [print] raises at a line that
    the console refuses; the lines before that one are printed.  On a
    console that takes every line it does not raise. *)
Theorem search_run_description (e : env) (args : search_cmd.Args) (ctx : Ctx) (w : world) :
  search_cmd.arg_field args = "description" →
  let fold_case := if flag (search_cmd.arg_ignore_case args) then lower else λ s, s in
  match load e (disk w) (storage ctx) with
  | Raise exc =>
      search_cmd.run e args ctx w
      = prints_then e ["Could not load tasks: " +:+ exc_str exc] 3 w
  | Ok ts =>
      let found :=
        List.filter (λ t, str_contains (fold_case (description t))
                            (fold_case (search_cmd.arg_query args))) ts in
      search_cmd.run e args ctx w
      = prints_then e
          (if flag (search_cmd.arg_json args)
           then [json_dumps (PList (map to_dict found))]
           else map (λ t, substring 0 8 (id t) +:+ ": " +:+ description t) found)
          0 w
  end
  ∧ disk (search_cmd.run e args ctx w).1 = disk w
  ∧ ((∀ out line, pfault e out line = None) →
     ∃ lines code, search_cmd.run e args ctx w
                   = (mkWorld (disk w) (stdout w ++ lines), Ok code)).
Proof.
  intros Hf fold_case. rewrite search_run_unfold.
  destruct (load e (disk w) (storage ctx)) as [ts|exc].
  2: { split_and!; [done|apply prints_then_disk|].
       intros Hacc. rewrite prints_then_accepted by done. eauto. }
  cbv zeta. rewrite Hf.
  rewrite (filterM_total _
    (λ t, str_contains (fold_case (description t))
            (fold_case (search_cmd.arg_query args)))).
  2: { intros t. unfold search_cmd._matches, fold_case.
       cbn [String.eqb Ascii.eqb Bool.eqb].
       by destruct (flag (search_cmd.arg_ignore_case args)). }
  split_and!; [done|apply prints_then_disk|].
  intros Hacc. rewrite prints_then_accepted by done. eauto.
Qed.

(** X24.  A case-insensitive search by tags over a file in which some task
    has a tag that is no str raises [AttributeError]: nothing is printed,
    not even the matches before that task, and the disk is untouched. *)
Theorem search_run_odd_tags (e : env) (args : search_cmd.Args) (ctx : Ctx) (w : world)
    (ts : list Task) :
  search_cmd.arg_field args = "tags" →
  flag (search_cmd.arg_ignore_case args) = true →
  load e (disk w) (storage ctx) = Ok ts →
  Exists (λ t, forallb is_str (tags t) = false) ts →
  search_cmd.run e args ctx w = (w, Raise AttributeError).
Proof.
  intros Hf Hi Hl Hbad. rewrite search_run_unfold, Hl, Hf, Hi.
  rewrite (filterM_raises _ AttributeError); [done| |].
  - intros t r <-. unfold search_cmd._matches. cbn [String.eqb Ascii.eqb Bool.eqb].
    pose proof (mapM_py_lower (tags t)) as Hm.
    destruct (forallb is_str (tags t)); rewrite Hm; [right; by eexists | by left].
  - eapply Exists_impl; [exact Hbad|]. intros t Ht.
    unfold search_cmd._matches. cbn [String.eqb Ascii.eqb Bool.eqb].
    pose proof (mapM_py_lower (tags t)) as Hm. rewrite Ht in Hm. by rewrite Hm.
Qed.
End search_run_facts.

Lemma search_run_description_witness :
  search_cmd.run (L := RefJson.lib) (T := sample_texts) sample_env
    (search_cmd.mkArgs "TEST" "description" (Some true) None) sample_ctx
    (mkWorld one_task_fs [])
  = (mkWorld one_task_fs ["a1: Test task"], Ok 0%Z).
Proof.
  exact (proj1 (search_run_description (L := RefJson.lib) (T := sample_texts) sample_env
                  (search_cmd.mkArgs "TEST" "description" (Some true) None) sample_ctx
                  (mkWorld one_task_fs []) eq_refl)).
Defined.

Lemma search_run_odd_tags_witness :
  search_cmd.run (L := RefJson.lib) (T := sample_texts) sample_env
    (search_cmd.mkArgs "unit" "tags" (Some true) None) sample_ctx
    (mkWorld odd_tag_fs [])
  = (mkWorld odd_tag_fs [], Raise AttributeError).
Proof.
  apply (search_run_odd_tags (L := RefJson.lib) (T := sample_texts) sample_env
           (search_cmd.mkArgs "unit" "tags" (Some true) None) sample_ctx
           (mkWorld odd_tag_fs []) [task_a; odd_tag_task]); try reflexivity.
  apply Exists_cons_tl, Exists_cons_hd. reflexivity.
Defined.

(** ** cli.py *)

Section main_facts.
Context {L : Lib} {T : Texts}.

Lemma prints_then_ends (e : env) (lines : list string) (code : Z) (w : world) :
  match (prints_then e lines code w).2 with
  | Ok code' => code' = code
  | Raise exc => ∃ out line, pfault e out line = Some exc
  end.
Proof.
  destruct (prints_then e lines code w).2 as [code'|exc] eqn:Hr.
  - by apply prints_then_code in Hr.
  - by apply prints_then_raise in Hr.
Qed.

Lemma add_run_ends (e : env) (args : add_cmd.Args) (ctx : Ctx) (w : world) :
  match (add_cmd.run e args ctx w).2 with
  | Ok code => (code = 0 ∨ code = 2 ∨ code = 3)%Z
  | Raise exc => ∃ out line, pfault e out line = Some exc
  end.
Proof.
  pose proof (add_run_unfold e args ctx w) as Hrun. cbv zeta in Hrun.
  destruct Hrun as (line & _ & ->).
  destruct (all_space _); [|destruct (flag _); [|destruct (add_task _ _ _ _) as [fs' [[]|ex]]]];
    match goal with |- context [prints_then e ?l ?c ?w'] =>
      pose proof (prints_then_ends e l c w') as Hp;
      destruct (prints_then e l c w').2; [lia|done] end.
Qed.

Lemma list_run_ends (e : env) (args : list_cmd.Args) (ctx : Ctx) (w : world) :
  match (list_cmd.run e args ctx w).2 with
  | Ok code => (code = 0 ∨ code = 3)%Z
  | Raise exc => ∃ out line, pfault e out line = Some exc
  end
  ∧ disk (list_cmd.run e args ctx w).1 = disk w.
Proof.
  rewrite list_run_unfold.
  destruct (load e (disk w) (storage ctx)) as [ts|ex]; cbv zeta;
    (split; [|apply prints_then_disk]);
    match goal with |- context [prints_then e ?l ?c ?w'] =>
      pose proof (prints_then_ends e l c w') as Hp;
      destruct (prints_then e l c w').2; [lia|done] end.
Qed.

Lemma search_run_ends (e : env) (args : search_cmd.Args) (ctx : Ctx) (w : world) :
  match (search_cmd.run e args ctx w).2 with
  | Ok code => (code = 0 ∨ code = 3)%Z
  | Raise exc =>
      (∃ out line, pfault e out line = Some exc)
      ∨ (exc = AttributeError
         ∧ search_cmd.arg_field args = "tags"
         ∧ flag (search_cmd.arg_ignore_case args) = true
         ∧ ∃ ts, load e (disk w) (storage ctx) = Ok ts
                 ∧ Exists (λ t, forallb is_str (tags t) = false) ts)
  end
  ∧ disk (search_cmd.run e args ctx w).1 = disk w.
Proof.
  rewrite search_run_unfold.
  destruct (load e (disk w) (storage ctx)) as [ts|ex].
  2: { split; [|apply prints_then_disk].
       match goal with |- context [prints_then e ?l ?c ?w'] =>
         pose proof (prints_then_ends e l c w') as Hp;
         destruct (prints_then e l c w').2; [lia|by left] end. }
  destruct (filterM _ ts) as [found|ex] eqn:Hf.
  - split; [|apply prints_then_disk].
    match goal with |- context [prints_then e ?l ?c ?w'] =>
      pose proof (prints_then_ends e l c w') as Hp;
      destruct (prints_then e l c w').2; [lia|by left] end.
  - split; [|done]. cbn [snd]. right.
    apply filterM_raise_inv in Hf.
    assert (Hex : Exists (λ t, forallb is_str (tags t) = false) ts).
    { eapply Exists_impl; [exact Hf|]. intros t Ht.
      by apply matches_raise_inv in Ht as (_ & _ & _ & ?). }
    apply Exists_exists in Hf as (t & _ & Ht).
    apply matches_raise_inv in Ht as (? & ? & ? & _). split_and!; try done.
    by exists ts.
Qed.

Lemma main_unfold (e : env) (args : Namespace) (w : world) :
  main e args w
  = match dispatch e args w with
    | (w', Ok code) => (w', Ok code)
    | (w', Raise exc) =>
        if flag (ns_debug args) then (w', Raise exc)
        else prints_then e ["Error: " +:+ exc_str exc] 1 w'
    end.
Proof.
  unfold main, dispatch, main_ctx. rewrite prog_bind_unfold. unfold attempt.
  cbn [debug].
  destruct (ns_command args) as [a|a|a];
    match goal with |- context [?run e a ?c w] =>
      destruct (run e a c w) as [w' [code|exc]] end;
    cbv beta iota; try done; (destruct (flag (ns_debug args)); [done|]);
    rewrite prog_bind_unfold; apply print_then; intros w''; by rewrite prints_then_nil.
Qed.

(** X25.  Without [--debug], [main] ends as the command does when the
    command returns, and the exit code is then 0, 2 or 3.  When the command
    raises, [main] prints the error line and returns 1, unless the console
    refuses that line and [main] raises what [print] raised.  A command
    raises only when [print] raised at a line that the console refused, or
    when a case-insensitive search by tags found, among the tasks that
    [load] returned, a task with a tag that is no str; the latter raises
    [AttributeError]. *)
Theorem main_debug_off (e : env) (args : Namespace) (w : world) :
  flag (ns_debug args) = false →
  match dispatch e args w with
  | (w', Ok code) => main e args w = (w', Ok code) ∧ (code = 0 ∨ code = 2 ∨ code = 3)%Z
  | (w', Raise exc) =>
      main e args w = prints_then e ["Error: " +:+ exc_str exc] 1 w'
      ∧ ((∃ out line, pfault e out line = Some exc)
         ∨ (exc = AttributeError
            ∧ ∃ a ts,
                ns_command args = CmdSearch a
                ∧ search_cmd.arg_field a = "tags"
                ∧ flag (search_cmd.arg_ignore_case a) = true
                ∧ load e (disk w) (mkStorage (ns_data_file args)) = Ok ts
                ∧ Exists (λ t, forallb is_str (tags t) = false) ts))
  end.
Proof.
  intros Hd. rewrite main_unfold, Hd. unfold dispatch.
  destruct (ns_command args) as [a|a|a].
  - pose proof (add_run_ends e a (main_ctx args) w) as He.
    destruct (add_cmd.run e a (main_ctx args) w) as [w' [code|exc]]; cbn [snd] in He.
    + by split.
    + split; [done|]. by left.
  - pose proof (list_run_ends e a (main_ctx args) w) as [He _].
    destruct (list_cmd.run e a (main_ctx args) w) as [w' [code|exc]]; cbn [snd] in He.
    + split; [done|]. lia.
    + split; [done|]. by left.
  - pose proof (search_run_ends e a (main_ctx args) w) as [He _].
    destruct (search_cmd.run e a (main_ctx args) w) as [w' [code|exc]]; cbn [snd] in He.
    + split; [done|]. lia.
    + split; [done|]. destruct He as [He|(-> & Hf & Hi & ts & Hl & Hex)]; [by left|].
      right. split; [done|]. by exists a, ts.
Qed.

(** X26.  The list and search commands never change the disk when run
    through [main], with or without [--debug], whether they end with an exit
    code or with an exception. *)
Theorem main_read_only (e : env) (args : Namespace) (w : world) :
  match ns_command args with
  | CmdAdd _ => True
  | CmdList _ | CmdSearch _ => disk (main e args w).1 = disk w
  end.
Proof.
  rewrite main_unfold. unfold dispatch.
  destruct (ns_command args) as [a|a|a]; [done| |].
  - pose proof (list_run_ends e a (main_ctx args) w) as [_ Hdisk].
    destruct (list_cmd.run e a (main_ctx args) w) as [w' [code|exc]]; [done|].
    destruct (flag (ns_debug args)); [done|]. by rewrite prints_then_disk.
  - pose proof (search_run_ends e a (main_ctx args) w) as [_ Hdisk].
    destruct (search_cmd.run e a (main_ctx args) w) as [w' [code|exc]]; [done|].
    destruct (flag (ns_debug args)); [done|]. by rewrite prints_then_disk.
Qed.

(** X27.  With [--debug], [main] ends exactly as the command it runs: the
    same exit code, the same output, and the command's exception raised
    again with no error line printed. *)
Theorem main_debug_on (e : env) (args : Namespace) (w : world) :
  flag (ns_debug args) = true →
  main e args w = dispatch e args w.
Proof.
  intros Hd. rewrite main_unfold, Hd.
  by destruct (dispatch e args w) as [w' [code|exc]].
Qed.
End main_facts.

(** The list command on a console that cannot write a description: the row
    is refused, [main] prints the error line and returns 1. *)
Lemma main_debug_off_witness :
  main (L := RefJson.lib) (T := sample_texts) ascii_console_env
    (mkNamespace "/data/tasks.json" None (CmdList (list_cmd.mkArgs None None None None)))
    (mkWorld cafe_fs [])
  = (mkWorld cafe_fs ["ID  CREATED               C  DESCRIPTION";
                      "Error: 'ascii' codec can't encode character"], Ok 1%Z).
Proof.
  exact (proj1 (main_debug_off (L := RefJson.lib) (T := sample_texts) ascii_console_env
                  (mkNamespace "/data/tasks.json" None
                     (CmdList (list_cmd.mkArgs None None None None)))
                  (mkWorld cafe_fs []) eq_refl)).
Defined.

(** A case-insensitive search by tags over a file with a number among the
    tags: [main] prints the error line and returns 1. *)
Example main_odd_tags :
  main (L := RefJson.lib) (T := sample_texts) sample_env
    (mkNamespace "/data/tasks.json" None
       (CmdSearch (search_cmd.mkArgs "unit" "tags" (Some true) None)))
    (mkWorld odd_tag_fs [])
  = (mkWorld odd_tag_fs ["Error: object has no attribute"], Ok 1%Z).
Proof. by vm_compute. Qed.

(** The list command itself raises after the header, with [--debug] or
    without. *)
Example list_run_refused_row :
  list_cmd.run (L := RefJson.lib) (T := sample_texts) ascii_console_env
    (list_cmd.mkArgs None None None None) sample_ctx (mkWorld cafe_fs [])
  = (mkWorld cafe_fs ["ID  CREATED               C  DESCRIPTION"], Raise UnicodeEncodeError).
Proof. by vm_compute. Qed.

Lemma main_debug_on_witness :
  main (L := RefJson.lib) (T := sample_texts) sample_env
    (mkNamespace "/data/tasks.json" (Some true)
       (CmdSearch (search_cmd.mkArgs "unit" "tags" (Some true) None)))
    (mkWorld odd_tag_fs [])
  = (mkWorld odd_tag_fs [], Raise AttributeError).
Proof.
  exact (main_debug_on (L := RefJson.lib) (T := sample_texts) sample_env
           (mkNamespace "/data/tasks.json" (Some true)
              (CmdSearch (search_cmd.mkArgs "unit" "tags" (Some true) None)))
           (mkWorld odd_tag_fs []) eq_refl).
Defined.
